(** * Day 2 seating plan generator: model and verification

    A shallow embedding of [seating.py]: the guest synthesizer, the
    deal loop and seat numbering of [create_day2_seating], the checks of
    [verify_seating_plan], the "current plan" slot handled by [main], and
    an object-level model of [create_day2_seating] over a store of
    DataFrame and Series objects.

    Modelling conventions.
    - A DataFrame is the list of its rows over the closed column set of
      the guest dictionaries; every text column holds a string. Where it
      matters whether a frame has its columns at all, it is a [frame]:
      [pd.DataFrame([])] has none, and reading its ['Name'] raises.
    - A call that may raise has an [outcome]: what it returned, or the
      exception it raised.
    - The counts [num_guests], [num_tables] and [table_size] are natural
      numbers.
    - [DataFrame.sample(frac=1)] is a parameter [sample] of the model; the
      only thing known about it is that it returns a permutation of its
      argument. *)

From stdpp Require Import base list strings pretty gmap sorting.

Local Open Scope string_scope.
Local Open Scope nat_scope.
Local Open Scope list_scope.
Local Open Scope stdpp_scope.

(** ** Data model *)

(** The two assignment columns hold text in the roster read from CSV and
    in the guest dictionaries (the empty string), and an integer once a
    table and a seat are assigned. *)
Inductive cell :=
  | Text (s : string)
  | Int (n : nat).

Global Instance cell_eq_dec : EqDecision cell.
Proof. solve_decision. Defined.

Record Row := mkRow {
  Table_No : cell;
  Seat_No : cell;
  Name : string;
  Business_Title : string;
  City : string;
  Business_Line : string;
  Sub_Business_Line : string;
  Division : string;
  Job_Level : string;
  Gender : string;
  EWE_Mgmt_Team : string;
  Workshop_Facilitator : string
}.

Global Instance Row_eq_dec : EqDecision Row.
Proof. solve_decision. Defined.

(** A DataFrame, as the list of its rows. *)
Abbreviation DataFrame := (list Row).

(** [member["Table No."] = table_no] *)
Definition set_Table_No (v : cell) (r : Row) : Row :=
  mkRow v (Seat_No r) (Name r) (Business_Title r) (City r) (Business_Line r)
        (Sub_Business_Line r) (Division r) (Job_Level r) (Gender r)
        (EWE_Mgmt_Team r) (Workshop_Facilitator r).

(** [member["Seat No."] = seat_no] *)
Definition set_Seat_No (v : cell) (r : Row) : Row :=
  mkRow (Table_No r) v (Name r) (Business_Title r) (City r) (Business_Line r)
        (Sub_Business_Line r) (Division r) (Job_Level r) (Gender r)
        (EWE_Mgmt_Team r) (Workshop_Facilitator r).

(** A record with its assignment columns blanked: what identifies the
    person independently of where they sit. *)
Definition unassigned (r : Row) : Row :=
  set_Seat_No (Text "") (set_Table_No (Text "") r).

(** ** Guest synthesizer *)

(** The dictionary built in the body of the loop of [generate_guests]. *)
Definition guest (i : nat) : Row :=
  {| Table_No := Text "";
     Seat_No := Text "";
     Name := "Guest " +:+ pretty i;
     Business_Title := "Guest";
     City := "";
     Business_Line := "";
     Sub_Business_Line := "";
     Division := "";
     Job_Level := "";
     Gender := "";
     EWE_Mgmt_Team := "";
     Workshop_Facilitator := "N" |}.

(** [for i in range(1, self.num_guests + 1): guests.append(guest)] *)
Definition generate_guests (num_guests : nat) : DataFrame :=
  guest <$> seq 1 num_guests.

(** ** The deal loop *)

(** [tables = defaultdict(list)]: a dictionary in insertion order. *)
Abbreviation tables_t A := (list (nat * list A)).

(** [tables[k]] read without inserting; a missing key reads as [[]]. *)
Fixpoint tables_get {A} (k : nat) (t : tables_t A) : list A :=
  match t with
  | [] => []
  | (k', l) :: t' => if decide (k = k') then l else tables_get k t'
  end.

(** [tables[k].append(x)]: a missing key is inserted last, with the
    one-element list. *)
Fixpoint tables_append {A} (k : nat) (x : A) (t : tables_t A) : tables_t A :=
  match t with
  | [] => [(k, [x])]
  | (k', l) :: t' =>
      if decide (k = k') then (k', l ++ [x]) :: t'
      else (k', l) :: tables_append k x t'
  end.

Section deal.
Context {A : Type}.
Variables num_tables table_size : nat.

(** One iteration of [for index, attendee in combined_df.iterrows()];
    the loop state is the dictionary and [table_number]. *)
Definition deal_step (st : tables_t A * nat) (attendee : A) : tables_t A * nat :=
  let '(tables, table_number) := st in
  let tables := tables_append table_number attendee tables in
  let table_number :=
    if decide (length (tables_get table_number tables) = table_size)
    then table_number + 1 else table_number in
  let table_number :=
    if decide (num_tables < table_number) then 1 else table_number in
  (tables, table_number).

Definition deal_from (st : tables_t A * nat) (rows : list A) : tables_t A * nat :=
  foldl deal_step st rows.

(** The dictionary after the loop, started with no table and
    [table_number = 1]. *)
Definition deal (rows : list A) : tables_t A :=
  fst (deal_from ([], 1) rows).
End deal.

(** ** Seat numbering *)

(** The body of the inner loop, after [member.copy()]. *)
Definition assign_seat (table_no seat_no : nat) (member : Row) : Row :=
  set_Seat_No (Int seat_no) (set_Table_No (Int table_no) member).

(** [for seat_no, member in enumerate(members, start=1)] *)
Definition seat_members (table_no : nat) (members : list Row) : list Row :=
  imap (λ i member, assign_seat table_no (S i) member) members.

(** [for table_no, members in tables.items()] *)
Definition seat_tables (tables : tables_t Row) : DataFrame :=
  tables ≫= (λ '(table_no, members), seat_members table_no members).

(** ** The generator *)

(** The attributes of a [SeatingPlanGenerator] object. *)
Record SeatingPlanGenerator := mkGenerator {
  attendees_df : DataFrame;
  num_guests : nat;
  num_tables : nat;
  table_size : nat;
  guests : DataFrame
}.

(** [__init__]: stores the arguments and synthesizes the guests once. *)
Definition init (attendees_df : DataFrame) (num_guests num_tables table_size : nat)
    : SeatingPlanGenerator :=
  mkGenerator attendees_df num_guests num_tables table_size (generate_guests num_guests).

(** [SeatingPlanGenerator(attendees_df=day1_df)], with the default
    arguments [num_guests=7, num_tables=9, table_size=7]. *)
Definition init_default (attendees_df : DataFrame) : SeatingPlanGenerator :=
  init attendees_df 7 9 7.

Section generator.
(** [DataFrame.sample(frac=1).reset_index(drop=True)] *)
Variable sample : DataFrame → DataFrame.

(** [pd.concat([self.attendees_df, self.guests], ignore_index=True)],
    then shuffled. *)
Definition combined_df (self : SeatingPlanGenerator) : DataFrame :=
  sample (attendees_df self ++ guests self).

(** The dictionary [tables] at the end of the deal loop. *)
Definition tables (self : SeatingPlanGenerator) : tables_t Row :=
  deal (num_tables self) (table_size self) (combined_df self).

(** The list [day2_seating] of the records that [create_day2_seating]
    puts, in this order, in the frame it returns; that frame, with its
    columns, is [day2_df] below. *)
Definition create_day2_seating (self : SeatingPlanGenerator) : DataFrame :=
  seat_tables (tables self).
End generator.

(** ** Verification *)

(** [day2_df[day2_df.duplicated(subset=['Name'], keep=False)]]: every row
    whose name is carried by more than one row. *)
Definition duplicates (day2_df : DataFrame) : DataFrame :=
  filter (λ r, 1 < length (filter (λ r', Name r' = Name r) day2_df)) day2_df.

(** [Series.unique()]: the distinct values, in order of first appearance. *)
Fixpoint unique (l : list string) : list string :=
  match l with
  | [] => []
  | x :: l => x :: filter (λ y, y ≠ x) (unique l)
  end.

(** The Python sets of names are finite sets of strings; the order in
    which [join] iterates over [missing_names] is the one of [elements]. *)
Definition verify_seating_plan (self : SeatingPlanGenerator) (day2_df : DataFrame)
    : bool * string :=
  let duplicates := duplicates day2_df in
  if decide (duplicates ≠ []) then
    (false, "Duplicate entries found: " +:+ String.concat ", " (unique (Name <$> duplicates)))
  else
    let day1_names : gset string := list_to_set (Name <$> attendees_df self) in
    let day2_names : gset string := list_to_set (Name <$> day2_df) in
    let missing_names := day1_names ∖ day2_names in
    if decide (missing_names ≠ ∅) then
      (false, "Missing participants from Day 1: " +:+ String.concat ", " (elements missing_names))
    else (true, "Seating plan is valid.").

(** ** Exceptions and frames with their columns *)

Inductive exception :=
  | KeyError (key : string)
  | Exception (text : string).

(** [str(e)], as it appears in a formatted message. *)
Definition str (e : exception) : string :=
  match e with
  | KeyError key => "'" +:+ key +:+ "'"
  | Exception text => text
  end.

(** What a call did: it returned a value, or it raised. *)
Inductive outcome (A : Type) :=
  | Returned (a : A)
  | Raised (e : exception).
Arguments Returned {A} a.
Arguments Raised {A} e.

(** A frame as [pd.DataFrame(records)] builds it: it has the columns of
    its records, so that the frame built from no record has no column at
    all. *)
Inductive frame :=
  | No_columns
  | Columns (rows : DataFrame).

(** [pd.DataFrame(day2_seating)] *)
Definition DataFrame_of (records : list Row) : frame :=
  if records is [] then No_columns else Columns records.

(** [day2_df = pd.DataFrame(day2_seating)], the frame that
    [create_day2_seating] returns. *)
Definition day2_df (sample : DataFrame → DataFrame)
    (self : SeatingPlanGenerator) : frame :=
  DataFrame_of (create_day2_seating sample self).

(** [verify_seating_plan] on a frame with its columns. On the frame
    without columns, [duplicated] finds nothing on an empty frame, and
    [day2_df['Name']] then raises [KeyError('Name')]. *)
Definition verify_seating_plan_frame (self : SeatingPlanGenerator)
    (day2_df : frame) : outcome (bool * string) :=
  match day2_df with
  | No_columns => Raised (KeyError "Name")
  | Columns rows => Returned (verify_seating_plan self rows)
  end.

(** ** The current-plan slot of [main] *)

(** [st.session_state]: the key ["day2_df"] is absent, or holds [None]
    or a plan. *)
Abbreviation session_state_t plan := (gmap string (option plan)).

(** What [main] reports through [st.success], [st.error] and [st.info]. *)
Inductive message :=
  | success (m : string)
  | error (m : string)
  | info (m : string).

Section main.
Context {roster plan : Type}.

(** The two methods that [main] calls on the generator it builds from
    the uploaded frame [day1_df], with what they return or raise:
    [generator.create_day2_seating()] and
    [generator.verify_seating_plan(day2_df)]. *)
Variable create : roster → outcome plan.
Variable verify : roster → plan → outcome (bool * string).

(** One run of [main]. [uploaded_file] is [None] when no file is
    uploaded, and otherwise the outcome of [pd.read_csv] on the file;
    [button] tells whether the button is clicked. An exception raised
    inside the [try] block ends the block where it is raised and is
    reported by the [except] clause; what was assigned before stays.
    The calls that only display (the title, the two frames, the download
    button) are left out. *)
Definition main (uploaded_file : option (outcome roster)) (button : bool)
    (session_state : session_state_t plan)
    : session_state_t plan * list message :=
  match uploaded_file with
  | None => (session_state, [info "Please upload a CSV file to begin."])
  | Some (Raised e) =>
      (session_state,
       [error ("An error occurred while processing the file: " +:+ str e)])
  | Some (Returned day1_df) =>
      let session_state :=
        match session_state !! "day2_df" with
        | None => <["day2_df" := None]> session_state
        | Some _ => session_state
        end in
      if button then
        match create day1_df with
        | Raised e =>
            (session_state,
             [error ("An error occurred while processing the file: " +:+ str e)])
        | Returned day2_df =>
            let session_state := <["day2_df" := Some day2_df]> session_state in
            match verify day1_df day2_df with
            | Returned (true, message) => (session_state, [success message])
            | Returned (false, message) =>
                (<["day2_df" := None]> session_state, [error message])
            | Raised e =>
                (session_state,
                 [error ("An error occurred while processing the file: "
                         +:+ str e)])
            end
        end
      else (session_state, [])
  end.
End main.

(** [main] on an upload that [pd.read_csv] fails to read or reads into a
    frame of the data model, with a [Name] column that holds text in
    every cell: the generator is built with the default configuration,
    and its two methods are the ones modelled above. *)
Definition main_named (sample : DataFrame → DataFrame)
    : option (outcome DataFrame) → bool → session_state_t frame
      → session_state_t frame * list message :=
  main (λ day1_df, Returned (day2_df sample (init_default day1_df)))
       (λ day1_df day2_df,
          verify_seating_plan_frame (init_default day1_df) day2_df).

(** ** The objects behind the frames

    [create_day2_seating] once more, this time with the DataFrame and
    Series objects it creates and updates: a store maps references to
    objects, an attribute of the generator holds a reference, and
    [member["Table No."] = table_no] updates the object [member] refers
    to. A computation fails when a reference does not lead to an object
    of the expected class. *)
Module Obj.

Abbreviation ref := positive.

Inductive object :=
  | Frame (rows : DataFrame)
  | Series (row : Row).

Abbreviation store := (gmap ref object).

Definition M (A : Type) : Type := store → option (A * store).

Global Instance M_ret : MRet M := λ A a σ, Some (a, σ).

Global Instance M_bind : MBind M := λ A B k c σ,
  match c σ with
  | Some (a, σ') => k a σ'
  | None => None
  end.

(** A [for] loop that threads its state through the body. *)
Fixpoint for_each {A B} (l : list A) (body : B → A → M B) (b : B) : M B :=
  match l with
  | [] => mret b
  | x :: l => b' ← body b x ; for_each l body b'
  end.

(** A new object, at a reference that is not in use. *)
Definition new (o : object) : M ref :=
  λ σ, let r := fresh (dom σ) in Some (r, <[r := o]> σ).

Definition frame_rows (df : ref) : M DataFrame :=
  λ σ, match σ !! df with
       | Some (Frame rows) => Some (rows, σ)
       | _ => None
       end.

Definition series_row (s : ref) : M Row :=
  λ σ, match σ !! s with
       | Some (Series row) => Some (row, σ)
       | _ => None
       end.

(** [s[column] = v], as the update [f] of the row held by [s]. *)
Definition setitem (s : ref) (f : Row → Row) : M unit :=
  λ σ, match σ !! s with
       | Some (Series row) => Some ((), <[s := Series (f row)]> σ)
       | _ => None
       end.

(** [pd.DataFrame(guests)] *)
Definition generate_guests (num_guests : nat) : M ref :=
  new (Frame (generate_guests num_guests)).

(** [pd.concat([df1, df2], ignore_index=True)] *)
Definition concat (df1 df2 : ref) : M ref :=
  rows1 ← frame_rows df1;
  rows2 ← frame_rows df2;
  new (Frame (rows1 ++ rows2)).

(** [member.copy()] *)
Definition copy (s : ref) : M ref :=
  row ← series_row s;
  new (Series row).

(** [pd.DataFrame(series)], from a list of Series. *)
Definition DataFrame_of (series : list ref) : M ref :=
  rows ← for_each series (λ rows s, row ← series_row s ; mret (rows ++ [row])) [];
  new (Frame rows).

(** The attributes of a generator object: the frames are references. *)
Record SeatingPlanGenerator := mkGenerator {
  attendees_df : ref;
  num_guests : nat;
  num_tables : nat;
  table_size : nat;
  guests : ref
}.

Definition init (attendees_df : ref) (num_guests num_tables table_size : nat)
    : M SeatingPlanGenerator :=
  guests ← generate_guests num_guests;
  mret (mkGenerator attendees_df num_guests num_tables table_size guests).

(** [enumerate(members, start)] *)
Definition enumerate {A} (start : nat) (l : list A) : list (nat * A) :=
  zip (seq start (length l)) l.

Section generator.
Variable sample : DataFrame → DataFrame.

(** [df.sample(frac=1).reset_index(drop=True)] *)
Definition sample_frame (df : ref) : M ref :=
rows ← frame_rows df;
new (Frame (sample rows)).

Definition create_day2_seating (self : SeatingPlanGenerator) : M ref :=
combined_df ← concat (attendees_df self) (guests self);
combined_df ← sample_frame combined_df;
rows ← frame_rows combined_df;
(* iterrows yields a new Series for every row *)
st ← for_each rows (λ st row,
        attendee ← new (Series row);
        mret (deal_step (num_tables self) (table_size self) st attendee))
      ([], 1);
day2_seating ← for_each st.1 (λ day2_seating '(table_no, members),
    for_each (enumerate 1 members) (λ day2_seating '(seat_no, member),
        member ← copy member;
        setitem member (set_Table_No (Int table_no));;
        setitem member (set_Seat_No (Int seat_no));;
        mret (day2_seating ++ [member]))
      day2_seating)
  [];
DataFrame_of day2_seating.
End generator.

End Obj.

(** ** Vocabulary of the statements *)

(** The rows of a plan seated at table [t], in plan order. *)
Definition table_rows (t : nat) (plan : DataFrame) : list Row :=
  filter (λ r, Table_No r = Int t) plan.

(** A roster record that only carries a name. *)
Definition person (name : string) : Row :=
  mkRow (Text "") (Text "") name "" "" "" "" "" "" "" "" "".

(** A roster of [n] records with pairwise distinct names. *)
Definition attendees (n : nat) : DataFrame :=
  (λ i, person ("Attendee " +:+ pretty i)) <$> seq 1 n.

(** The roster of the first scenario of the specification. *)
Definition alice_bob_carol : DataFrame :=
  [person "Alice"; person "Bob"; person "Carol"].

(** The number of rows of a frame that carry a given name. *)
Definition occurrences (name : string) (df : DataFrame) : nat :=
  length (filter (λ r, Name r = name) df).


(** The state of the deal loop after [i] records: tables are being
    filled in turn ([filling]), or the counter has wrapped back to table 1
    ([wrapped]); with no table, or with tables of size zero, the counter
    never leaves table 1 ([degenerate]). *)
Inductive dealing {A} (num_tables table_size : nat)
    (i : nat) (T : tables_t A) (tn : nat) : Prop :=
  | filling q r :
      i = q * table_size + r → r < table_size → q < num_tables → tn = S q →
      (∀ t, 1 ≤ t ≤ q → length (tables_get t T) = table_size) →
      length (tables_get (S q) T) = r →
      (∀ t, t = 0 ∨ S q < t → length (tables_get t T) = 0) →
      dealing num_tables table_size i T tn
  | wrapped :
      1 ≤ num_tables → 1 ≤ table_size → num_tables * table_size ≤ i → tn = 1 →
      length (tables_get 1 T) = table_size + (i - num_tables * table_size) →
      (∀ t, 2 ≤ t ≤ num_tables → length (tables_get t T) = table_size) →
      (∀ t, t = 0 ∨ num_tables < t → length (tables_get t T) = 0) →
      dealing num_tables table_size i T tn
  | degenerate :
      num_tables = 0 ∨ table_size = 0 → tn = 1 →
      length (tables_get 1 T) = i →
      (∀ t, t ≠ 1 → length (tables_get t T) = 0) →
      dealing num_tables table_size i T tn.

(** Two dictionaries with the same keys in the same order and related
    members. *)
Definition tables_rel {A B} (P : A → B → Prop)
    (T1 : tables_t A) (T2 : tables_t B) : Prop :=
  Forall2 (λ e1 e2, e1.1 = e2.1 ∧ Forall2 P e1.2 e2.2) T1 T2.

(** [c] runs from [σ] without failing, leaves every object of [σ] as it
    is, and its result and final store satisfy [Q]. *)
Definition extends {A} (c : Obj.M A) (σ : Obj.store)
    (Q : A → Obj.store → Prop) : Prop :=
  ∃ a σ', c σ = Some (a, σ') ∧ σ ⊆ σ' ∧ Q a σ'.

(** The reference [s] leads to a Series that holds [row]. *)
Definition holds (σ : Obj.store) (s : Obj.ref) (row : Row) : Prop :=
  σ !! s = Some (Obj.Series row).

(** The table and the seat a row is assigned to, when both columns hold
    integers. *)
Definition seat_of (r : Row) : option (nat * nat) :=
  match Table_No r, Seat_No r with
  | Int t, Int s => Some (t, s)
  | _, _ => None
  end.

(** Seats in reading order: by table, then by seat within the table. *)
Definition seat_lt (p q : nat * nat) : Prop :=
  p.1 < q.1 ∨ (p.1 = q.1 ∧ p.2 < q.2).

(** The current-plan slot holds nothing, or a plan that passed the
    verification against some roster. *)
Definition slot_valid (session_state : session_state_t frame) : Prop :=
  ∀ plan, session_state !! "day2_df" = Some (Some plan) →
    ∃ day1_df, verify_seating_plan_frame (init_default day1_df) plan
               = Returned (true, "Seating plan is valid.").

(** ** The model at work *)

Example deal_example : deal 2 3 (seq 0 10) = [(1, [0;1;2;6;7;8;9]); (2, [3;4;5])].
Proof. reflexivity. Qed.

Example verify_example_duplicate :
  verify_seating_plan (init [person "Alice"; person "Alice"] 1 9 7)
    (create_day2_seating id (init [person "Alice"; person "Alice"] 1 9 7))
  = (false, "Duplicate entries found: Alice").
Proof. vm_compute. reflexivity. Qed.

Example verify_example_valid :
  verify_seating_plan (init [person "Alice"; person "Bob"] 1 9 7)
    (create_day2_seating id (init [person "Alice"; person "Bob"] 1 9 7))
  = (true, "Seating plan is valid.").
Proof. vm_compute. reflexivity. Qed.

Example obj_create_example :
  ∃ σ, Obj.create_day2_seating reverse (Obj.mkGenerator 1 1 1 2 2)
         {[ 1%positive := Obj.Frame [person "Alice"; person "Bob"];
            2%positive := Obj.Frame (generate_guests 1) ]}
       = Some (11%positive, σ)
       ∧ σ !! 1%positive = Some (Obj.Frame [person "Alice"; person "Bob"])
       ∧ σ !! 11%positive
         = Some (Obj.Frame (create_day2_seating reverse
                   (init [person "Alice"; person "Bob"] 1 1 2))).
Proof. eexists. split_and!; vm_compute; reflexivity. Qed.

Example single_seat_example :
  create_day2_seating id (init [person "Alice"] 0 1 1)
  = [assign_seat 1 1 (person "Alice")]
  ∧ verify_seating_plan (init [person "Alice"] 0 1 1)
      (create_day2_seating id (init [person "Alice"] 0 1 1))
    = (true, "Seating plan is valid.").
Proof. split; vm_compute; reflexivity. Qed.

Example verify_example_missing :
  verify_seating_plan (init [person "Alice"; person "Bob"] 1 9 7) [person "Bob"]
  = (false, "Missing participants from Day 1: Alice").
Proof. vm_compute. reflexivity. Qed.

(** * Properties of the deal loop *)

Section deal_facts.
Context {A : Type}.
Implicit Types (T : tables_t A) (k t i : nat) (x : A) (l : list A).

Lemma tables_get_append k t x T :
  tables_get t (tables_append k x T)
  = if decide (t = k) then tables_get t T ++ [x] else tables_get t T.
Proof.
  induction T as [|[k' m] T IH]; cbn [tables_get tables_append].
  - by destruct (decide (t = k)).
  - destruct (decide (k = k')) as [->|Hk]; cbn [tables_get].
    + by destruct (decide (t = k')).
    + rewrite IH. destruct (decide (t = k')) as [->|]; [|done].
      by rewrite decide_False.
Qed.

Lemma tables_get_missing k T : k ∉ T.*1 → tables_get k T = [].
Proof.
  induction T as [|[k' m] T IH]; cbn [tables_get]; [done|].
  rewrite fmap_cons, not_elem_of_cons. intros [Hk HT].
  rewrite decide_False by done. by apply IH.
Qed.

Lemma tables_get_elem k m T : NoDup T.*1 → (k, m) ∈ T → tables_get k T = m.
Proof.
  induction T as [|[k' m'] T IH]; [by intros _ ?%elem_of_nil|].
  rewrite fmap_cons, NoDup_cons, elem_of_cons. cbn [fst tables_get].
  intros [Hk' HT] [[= -> ->]|Hin].
  - by rewrite decide_True.
  - rewrite decide_False; [by apply IH|].
    intros ->. apply Hk', list_elem_of_fmap. by exists (k', m).
Qed.

Lemma tables_append_keys k x T :
  (tables_append k x T).*1 = if decide (k ∈ T.*1) then T.*1 else T.*1 ++ [k].
Proof.
  induction T as [|[k' m] T IH]; cbn [tables_append].
  - rewrite decide_False; [done|]. apply not_elem_of_nil.
  - rewrite !fmap_cons. cbn [fst].
    destruct (decide (k = k')) as [->|Hk].
    + rewrite decide_True; [done|]. rewrite elem_of_cons; by left.
    + rewrite fmap_cons, IH. cbn [fst].
      destruct (decide (k ∈ T.*1)) as [Hin|Hin].
      * rewrite decide_True; [done|]. rewrite elem_of_cons; by right.
      * rewrite decide_False; [done|]. rewrite elem_of_cons. tauto.
Qed.

Lemma tables_append_NoDup k x T : NoDup T.*1 → NoDup (tables_append k x T).*1.
Proof.
  intros HT. rewrite tables_append_keys. case_decide; [done|].
  apply NoDup_app. split_and!; [done| |apply NoDup_singleton].
  intros k' Hk' ->%list_elem_of_singleton. done.
Qed.

Lemma tables_append_concat k x T :
  concat (tables_append k x T).*2 ≡ₚ x :: concat T.*2.
Proof.
  induction T as [|[k' m] T IH]; cbn [tables_append]; [done|].
  destruct (decide (k = k')); rewrite !fmap_cons; cbn [snd concat].
  - rewrite <-(assoc_L (++)). cbn [app]. by rewrite <-Permutation_middle.
  - rewrite IH. by rewrite <-Permutation_middle.
Qed.

Lemma tables_append_sublist k x T l t :
  (∀ t', tables_get t' T `sublist_of` l) →
  tables_get t (tables_append k x T) `sublist_of` l ++ [x].
Proof.
  intros HT. rewrite tables_get_append. case_decide.
  - by apply sublist_app.
  - by apply sublist_inserts_r.
Qed.

Variables num_tables table_size : nat.
Abbreviation step := (deal_step num_tables table_size).
Abbreviation capacity := (num_tables * table_size).
Abbreviation dealing_at := (@dealing A num_tables table_size).

Lemma deal_from_app st l1 l2 :
  deal_from num_tables table_size st (l1 ++ l2)
  = deal_from num_tables table_size (deal_from num_tables table_size st l1) l2.
Proof. apply foldl_app. Qed.

Lemma deal_from_cons st x l :
  deal_from num_tables table_size st (x :: l)
  = deal_from num_tables table_size (step st x) l.
Proof. done. Qed.

Lemma deal_step_tables T tn x : (step (T, tn) x).1 = tables_append tn x T.
Proof. done. Qed.

(** Invariants of the loop that do not depend on the counter. *)
Lemma deal_from_NoDup st l :
  NoDup st.1.*1 → NoDup (deal_from num_tables table_size st l).1.*1.
Proof.
  revert st. induction l as [|x l IH]; intros [T tn] HT; [done|].
  rewrite deal_from_cons. apply IH.
  rewrite deal_step_tables. by apply tables_append_NoDup.
Qed.

Lemma deal_from_concat st l :
  concat (deal_from num_tables table_size st l).1.*2 ≡ₚ concat st.1.*2 ++ l.
Proof.
  revert st. induction l as [|x l IH]; intros [T tn].
  - by rewrite (right_id_L [] (++)).
  - rewrite deal_from_cons, IH, deal_step_tables, tables_append_concat.
    cbn [fst app]. by rewrite <-Permutation_middle.
Qed.

Lemma deal_from_sublist st l0 l t :
  (∀ t', tables_get t' st.1 `sublist_of` l0) →
  tables_get t (deal_from num_tables table_size st l).1 `sublist_of` l0 ++ l.
Proof.
  revert st l0 t. induction l as [|x l IH]; intros [T tn] l0 t HT.
  - by rewrite (right_id_L [] (++)).
  - rewrite deal_from_cons, (cons_middle x l0 l), (assoc_L (++)).
    apply IH. intros t'. rewrite deal_step_tables.
    by apply tables_append_sublist.
Qed.

Lemma dealing_init : dealing_at 0 [] 1.
Proof.
  destruct (decide (num_tables = 0 ∨ table_size = 0)).
  - by apply degenerate.
  - apply (filling _ _ _ _ _ 0 0); simpl; try done; lia.
Qed.

Lemma length_get_append k t x T :
  length (tables_get t (tables_append k x T))
  = if decide (t = k) then S (length (tables_get t T)) else length (tables_get t T).
Proof.
  rewrite tables_get_append. case_decide; [|done].
  rewrite length_app. simpl. lia.
Qed.

Lemma length_get_append_eq k x T :
  length (tables_get k (tables_append k x T)) = S (length (tables_get k T)).
Proof. rewrite length_get_append. by rewrite decide_True. Qed.

Lemma length_get_append_ne k t x T :
  t ≠ k → length (tables_get t (tables_append k x T)) = length (tables_get t T).
Proof. intros. rewrite length_get_append. by rewrite decide_False. Qed.

Lemma dealing_step i T tn x :
  dealing_at i T tn → dealing_at (S i) (step (T, tn) x).1 (step (T, tn) x).2.
Proof.
  intros [q r Hi Hr Hq -> Hfull Hcur Hnone
         |Hnt Hts Hi -> H1 Hfull Hnone
         |Hdeg -> H1 Hnone]; cbn [deal_step fst snd];
    rewrite length_get_append_eq.
  - rewrite Hcur. destruct (decide (S r = table_size)) as [Hlast|Hmore].
    + destruct (decide (num_tables < S q + 1)).
      * apply wrapped; try lia; try nia.
        -- destruct (decide (q = 0)) as [->|].
           ++ rewrite length_get_append_eq. nia.
           ++ rewrite length_get_append_ne, Hfull by lia. nia.
        -- intros t Ht. destruct (decide (t = S q)) as [->|].
           ++ rewrite length_get_append_eq. lia.
           ++ rewrite length_get_append_ne by done. apply Hfull. lia.
        -- intros t Ht. rewrite length_get_append_ne by lia. apply Hnone. lia.
      * apply (filling _ _ _ _ _ (S q) 0); try lia; try nia.
        -- intros t Ht. destruct (decide (t = S q)) as [->|].
           ++ rewrite length_get_append_eq. lia.
           ++ rewrite length_get_append_ne by done. apply Hfull. lia.
        -- rewrite length_get_append_ne by lia. apply Hnone. lia.
        -- intros t Ht. rewrite length_get_append_ne by lia. apply Hnone. lia.
    + rewrite decide_False by lia.
      apply (filling _ _ _ _ _ q (S r)); try lia.
      * intros t Ht. rewrite length_get_append_ne by lia. by apply Hfull.
      * by rewrite length_get_append_eq, Hcur.
      * intros t Ht. rewrite length_get_append_ne by lia. by apply Hnone.
  - rewrite H1. destruct (decide (_ = table_size)); [lia|].
    destruct (decide (num_tables < 1)); [lia|].
    apply wrapped; try lia.
    + rewrite length_get_append_eq, H1. lia.
    + intros t Ht. rewrite length_get_append_ne by lia. by apply Hfull.
    + intros t Ht. rewrite length_get_append_ne by lia. by apply Hnone.
  - rewrite H1.
    assert ((if decide (num_tables <
               (if decide (S i = table_size) then 1 + 1 else 1))
             then 1 else if decide (S i = table_size) then 1 + 1 else 1) = 1) as ->.
    { repeat case_decide; lia. }
    apply degenerate; try done.
    + by rewrite length_get_append_eq, H1.
    + intros t Ht. rewrite length_get_append_ne by done. by apply Hnone.
Qed.

Lemma dealing_deal_from i st l :
  dealing_at i st.1 st.2 →
  dealing_at (i + length l)
    (deal_from num_tables table_size st l).1
    (deal_from num_tables table_size st l).2.
Proof.
  revert i st. induction l as [|x l IH]; intros i [T tn] HI.
  - by rewrite Nat.add_0_r.
  - replace (i + length (x :: l)) with (S i + length l) by (cbn [length]; lia).
    rewrite deal_from_cons. apply IH. by apply dealing_step.
Qed.

Lemma dealing_deal l :
  dealing_at (length l) (deal num_tables table_size l)
             (deal_from num_tables table_size ([], 1) l).2.
Proof. apply (dealing_deal_from 0 ([], 1) l dealing_init). Qed.

(** Within capacity no table is overfilled and no table outside
    [1..num_tables] is used. *)
Lemma deal_within_capacity l t :
  length l ≤ capacity →
  length (tables_get t (deal num_tables table_size l)) ≤ table_size
  ∧ (0 < length (tables_get t (deal num_tables table_size l)) → 1 ≤ t ≤ num_tables).
Proof.
  intros Hcap.
  destruct (dealing_deal l) as [q r Hi Hr Hq _ Hfull Hcur Hnone
                               |Hnt Hts Hi _ H1 Hfull Hnone
                               |Hdeg _ H1 Hnone].
  - destruct (decide (1 ≤ t ≤ q)) as [Ht|Ht]; [rewrite Hfull by done; lia|].
    destruct (decide (t = S q)) as [->|Ht']; [rewrite Hcur; lia|].
    rewrite Hnone by lia. lia.
  - destruct (decide (t = 1)) as [->|Ht]; [rewrite H1; lia|].
    destruct (decide (2 ≤ t ≤ num_tables)) as [Ht'|Ht']; [rewrite Hfull by done; lia|].
    rewrite Hnone by lia. lia.
  - destruct (decide (t = 1)) as [->|Ht]; [|rewrite Hnone by done; lia].
    rewrite H1. destruct Hdeg as [-> | ->]; lia.
Qed.

(** Beyond capacity every table holds [table_size] records, except
    table 1, which also holds all the records in excess. *)
Lemma deal_beyond_capacity l :
  capacity < length l → 1 ≤ num_tables →
  length (tables_get 1 (deal num_tables table_size l))
    = table_size + (length l - capacity)
  ∧ (∀ t, 2 ≤ t ≤ num_tables →
       length (tables_get t (deal num_tables table_size l)) = table_size)
  ∧ (∀ t, t = 0 ∨ num_tables < t →
       length (tables_get t (deal num_tables table_size l)) = 0).
Proof.
  intros Hcap Hnt.
  destruct (dealing_deal l) as [q r Hi Hr Hq _ Hfull Hcur Hnone
                               |_ Hts Hi _ H1 Hfull Hnone
                               |Hdeg _ H1 Hnone].
  - nia.
  - done.
  - destruct Hdeg as [?| ->]; [lia|]. split_and!.
    + rewrite H1. lia.
    + intros t Ht. apply Hnone. lia.
    + intros t Ht. apply Hnone. lia.
Qed.

(** Once [capacity] records are dealt, the counter is back on table 1
    and the test that advances it cannot succeed any more. *)
Lemma dealing_at_capacity i T tn :
  dealing_at i T tn → capacity ≤ i →
  tn = 1 ∧ (table_size ≤ length (tables_get 1 T) ∨ num_tables = 0).
Proof.
  intros [q r Hi Hr Hq _ Hfull Hcur Hnone
         |Hnt Hts Hi ? H1 Hfull Hnone
         |Hdeg ? H1 Hnone] Hcap.
  - nia.
  - split; [done|]. left. lia.
  - split; [done|]. destruct Hdeg as [?| ->]; [by right|left; lia].
Qed.

Lemma deal_from_stuck T l :
  table_size ≤ length (tables_get 1 T) ∨ num_tables = 0 →
  deal_from num_tables table_size (T, 1) l
  = (foldl (λ T x, tables_append 1 x T) T l, 1).
Proof.
  revert T. induction l as [|x l IH]; intros T HT; [done|].
  rewrite deal_from_cons. cbn [foldl].
  assert (step (T, 1) x = (tables_append 1 x T, 1)) as ->.
  { cbn [deal_step]. rewrite length_get_append_eq. f_equal.
    repeat case_decide; lia. }
  apply IH. rewrite length_get_append_eq. lia.
Qed.

Lemma tables_get_foldl_append T l t :
  tables_get t (foldl (λ T x, tables_append 1 x T) T l)
  = if decide (t = 1) then tables_get 1 T ++ l else tables_get t T.
Proof.
  revert T. induction l as [|x l IH]; intros T; cbn [foldl].
  - case_decide; [subst; by rewrite (right_id_L [] (++))|done].
  - rewrite IH. destruct (decide (t = 1)) as [->|Ht].
    + rewrite tables_get_append, decide_True by done.
      by rewrite <-(assoc_L (++)).
    + by rewrite tables_get_append, decide_False.
Qed.

(** Dealing a list longer than the capacity is dealing its first
    [capacity] records and then appending all the others to table 1. *)
Lemma deal_overflow l t :
  capacity < length l →
  tables_get t (deal num_tables table_size l)
  = if decide (t = 1)
    then tables_get 1 (deal num_tables table_size (take capacity l)) ++ drop capacity l
    else tables_get t (deal num_tables table_size (take capacity l)).
Proof.
  intros Hcap. unfold deal.
  rewrite <-(take_drop capacity l) at 1. rewrite deal_from_app.
  pose proof (dealing_deal (take capacity l)) as HI. unfold deal in HI.
  destruct (deal_from num_tables table_size ([], 1) (take capacity l))
    as [T tn] eqn:E.
  cbn [fst snd] in *.
  apply dealing_at_capacity in HI as [-> HT]; [|rewrite length_take; lia].
  rewrite deal_from_stuck by done. cbn [fst].
  apply tables_get_foldl_append.
Qed.

Lemma deal_NoDup l : NoDup (deal num_tables table_size l).*1.
Proof. apply (deal_from_NoDup ([], 1)). apply NoDup_nil_2. Qed.

Lemma deal_concat l : concat (deal num_tables table_size l).*2 ≡ₚ l.
Proof. apply (deal_from_concat ([], 1)). Qed.

Lemma deal_sublist l t : tables_get t (deal num_tables table_size l) `sublist_of` l.
Proof. apply (deal_from_sublist ([], 1) [] l t). intros t'. apply sublist_nil_l. Qed.
End deal_facts.

(** * Properties of the seat numbering *)

Section seat_facts.
Implicit Types (t k : nat) (members : list Row) (T : tables_t Row).

Lemma length_seat_members t members :
  length (seat_members t members) = length members.
Proof. apply length_imap. Qed.

Lemma seat_members_lookup t members i :
  seat_members t members !! i = assign_seat t (S i) <$> members !! i.
Proof. unfold seat_members. by rewrite list_lookup_imap. Qed.

Lemma unassigned_seat_members t members :
  unassigned <$> seat_members t members = unassigned <$> members.
Proof.
  apply list_eq; intros i.
  rewrite !list_lookup_fmap, seat_members_lookup.
  by destruct (members !! i).
Qed.

(** The seats of a table are numbered 1, 2, ... in deal order. *)
Lemma Seat_No_seat_members t members :
  Seat_No <$> seat_members t members = Int <$> seq 1 (length members).
Proof.
  apply list_eq; intros i.
  rewrite !list_lookup_fmap, seat_members_lookup.
  destruct (members !! i) as [r|] eqn:Hi.
  - apply lookup_lt_Some in Hi. by rewrite lookup_seq_lt.
  - apply lookup_ge_None in Hi. by rewrite lookup_seq_ge.
Qed.

Lemma Table_No_seat_members t members :
  Forall (λ r, Table_No r = Int t) (seat_members t members).
Proof.
  apply Forall_forall. intros r (i & m & -> & _)%elem_of_lookup_imap. done.
Qed.

Lemma table_rows_seat_members t k members :
  table_rows t (seat_members k members)
  = if decide (t = k) then seat_members k members else [].
Proof.
  pose proof (Table_No_seat_members k members) as Hall.
  generalize dependent (seat_members k members). intros l Hall.
  unfold table_rows. induction Hall as [|r l Hr _ IH]; [by case_decide|].
  destruct (decide (t = k)) as [->|Hne].
  - rewrite filter_cons_True by done. by rewrite IH.
  - rewrite filter_cons_False; [done|]. rewrite Hr. congruence.
Qed.

Lemma seat_tables_cons t members T :
  seat_tables ((t, members) :: T) = seat_members t members ++ seat_tables T.
Proof. done. Qed.

(** The rows of table [t] in the plan are the records dealt into it,
    seated in deal order. *)
Lemma table_rows_seat_tables t T :
  NoDup T.*1 → table_rows t (seat_tables T) = seat_members t (tables_get t T).
Proof.
  induction T as [|[k m] T IH]; [done|].
  rewrite fmap_cons, NoDup_cons. cbn [fst]. intros [Hk HT].
  rewrite seat_tables_cons. unfold table_rows in *.
  rewrite filter_app. fold (table_rows t (seat_members k m)).
  rewrite table_rows_seat_members, IH by done. cbn [tables_get].
  destruct (decide (t = k)) as [->|Hne]; [|done].
  rewrite (tables_get_missing k T) by done. apply (right_id_L [] (++)).
Qed.

Lemma unassigned_seat_tables T :
  unassigned <$> seat_tables T = unassigned <$> concat T.*2.
Proof.
  induction T as [|[k m] T IH]; [done|].
  rewrite seat_tables_cons, fmap_cons. cbn [snd concat].
  by rewrite !fmap_app, unassigned_seat_members, IH.
Qed.

Lemma Name_unassigned (l : list Row) : Name <$> l = Name <$> (unassigned <$> l).
Proof. by rewrite <-list_fmap_compose. Qed.

Lemma elem_of_seat_tables r T :
  r ∈ seat_tables T →
  ∃ t members i member,
    (t, members) ∈ T ∧ members !! i = Some member ∧ r = assign_seat t (S i) member.
Proof.
  unfold seat_tables. intros ([t members] & Hr & HT)%list_elem_of_bind.
  apply elem_of_lookup_imap in Hr as (i & member & -> & Hi).
  by exists t, members, i, member.
Qed.
End seat_facts.

(** * Properties of the generated plan *)

Section plan_facts.
Variable sample : DataFrame → DataFrame.
Hypothesis sample_permutation : ∀ df, sample df ≡ₚ df.

Implicit Types (self : SeatingPlanGenerator) (t : nat).

Lemma length_combined_df self :
  length (combined_df sample self)
  = length (attendees_df self) + length (guests self).
Proof. unfold combined_df. by rewrite sample_permutation, length_app. Qed.

Lemma length_generate_guests n : length (generate_guests n) = n.
Proof. unfold generate_guests. by rewrite length_fmap, length_seq. Qed.

(** The plan holds the roster and the guests, up to order and up to
    the assignment columns. *)
Lemma create_day2_seating_unassigned self :
  unassigned <$> create_day2_seating sample self
  ≡ₚ unassigned <$> (attendees_df self ++ guests self).
Proof.
  unfold create_day2_seating, tables.
  rewrite unassigned_seat_tables, deal_concat.
  unfold combined_df. by rewrite sample_permutation.
Qed.

Lemma create_day2_seating_names self :
  Name <$> create_day2_seating sample self
  ≡ₚ Name <$> (attendees_df self ++ guests self).
Proof.
  rewrite (Name_unassigned (create_day2_seating _ _)).
  rewrite create_day2_seating_unassigned. by rewrite <-Name_unassigned.
Qed.

Lemma table_rows_create_day2_seating self t :
  table_rows t (create_day2_seating sample self)
  = seat_members t (tables_get t (tables sample self)).
Proof. apply table_rows_seat_tables, deal_NoDup. Qed.

Lemma guest_names n :
  Name <$> generate_guests n = (λ i, "Guest " +:+ pretty i) <$> seq 1 n.
Proof. unfold generate_guests. by rewrite <-list_fmap_compose. Qed.

Lemma NoDup_guest_names n : NoDup (Name <$> generate_guests n).
Proof.
  rewrite guest_names. apply NoDup_fmap_2; [|apply NoDup_seq].
  intros i j Hij. by simplify_eq.
Qed.

Lemma length_create_day2_seating R ng nt ts :
  length (create_day2_seating sample (init R ng nt ts)) = length R + ng.
Proof.
  pose proof (create_day2_seating_unassigned (init R ng nt ts)) as Hperm.
  apply Permutation_length in Hperm.
  rewrite !length_fmap, length_app in Hperm.
  cbn [init attendees_df guests] in Hperm.
  by rewrite length_generate_guests in Hperm.
Qed.

(** The returned frame has its columns as soon as one record is dealt. *)
Lemma day2_df_Columns R ng nt ts :
  0 < length R + ng →
  day2_df sample (init R ng nt ts)
  = Columns (create_day2_seating sample (init R ng nt ts)).
Proof.
  intros Hpos. unfold day2_df, DataFrame_of.
  pose proof (length_create_day2_seating R ng nt ts) as Hlen.
  destruct (create_day2_seating sample (init R ng nt ts)); [|done].
  cbn [length] in Hlen. lia.
Qed.

Lemma day2_df_No_columns R ng nt ts :
  length R + ng = 0 → day2_df sample (init R ng nt ts) = No_columns.
Proof.
  intros Hzero. unfold day2_df, DataFrame_of.
  pose proof (length_create_day2_seating R ng nt ts) as Hlen.
  destruct (create_day2_seating sample (init R ng nt ts)); [done|].
  cbn [length] in Hlen. lia.
Qed.

Lemma tables_init R ng nt ts :
  tables sample (init R ng nt ts)
  = deal nt ts (combined_df sample (init R ng nt ts)).
Proof. done. Qed.

Lemma length_table_rows self t :
  length (table_rows t (create_day2_seating sample self))
  = length (tables_get t (tables sample self)).
Proof. by rewrite table_rows_create_day2_seating, length_seat_members. Qed.
End plan_facts.

(** * Properties of the verification *)

Section verify_facts.
Implicit Types (df : DataFrame) (n : string) (l : list string).

Lemma occurrences_cons n r df :
  occurrences n (r :: df)
  = (if decide (Name r = n) then 1 else 0) + occurrences n df.
Proof.
  unfold occurrences. rewrite filter_cons. by case_decide.
Qed.

Lemma occurrences_pos n df : 0 < occurrences n df ↔ n ∈ Name <$> df.
Proof.
  induction df as [|r df IH].
  - rewrite fmap_nil, elem_of_nil. unfold occurrences.
    rewrite filter_nil. cbn [length]. lia.
  - rewrite occurrences_cons, fmap_cons, elem_of_cons, <-IH.
    destruct (decide (Name r = n)) as [<-|Hne].
    + split; [by left|lia].
    + split; [intros ?; right; lia|intros [->|?]; [done|lia]].
Qed.

Lemma NoDup_occurrences df :
  NoDup (Name <$> df) ↔ ∀ n, occurrences n df ≤ 1.
Proof.
  induction df as [|r df IH].
  - split; [|intros _; apply NoDup_nil_2].
    intros _ n. unfold occurrences. rewrite filter_nil. cbn [length]. lia.
  - rewrite fmap_cons, NoDup_cons, IH. split.
    + intros [Hr Hdf] n. rewrite occurrences_cons.
      case_decide as Hn; [|by apply Hdf].
      subst n. rewrite <-occurrences_pos in Hr. lia.
    + intros Hall. split.
      * rewrite <-occurrences_pos. specialize (Hall (Name r)).
        rewrite occurrences_cons, decide_True in Hall by done. lia.
      * intros n. specialize (Hall n). rewrite occurrences_cons in Hall. lia.
Qed.

(** The rows kept by [duplicated(keep=False)] are those whose name
    occurs more than once. *)
Lemma elem_of_duplicates r df :
  r ∈ duplicates df ↔ 1 < occurrences (Name r) df ∧ r ∈ df.
Proof. unfold duplicates. by rewrite list_elem_of_filter. Qed.

Lemma elem_of_duplicates_names n df :
  n ∈ Name <$> duplicates df ↔ 1 < occurrences n df.
Proof.
  rewrite list_elem_of_fmap. split.
  - intros (r & -> & Hr). by apply elem_of_duplicates in Hr as [? _].
  - intros Hn. assert (n ∈ Name <$> df) as (r & -> & Hr)%list_elem_of_fmap.
    { apply occurrences_pos. lia. }
    exists r. split; [done|]. by apply elem_of_duplicates.
Qed.

Lemma duplicates_nil df : duplicates df = [] ↔ NoDup (Name <$> df).
Proof.
  rewrite NoDup_occurrences. split.
  - intros Hnil n. destruct (decide (occurrences n df ≤ 1)) as [|Hn]; [done|].
    assert (n ∈ Name <$> duplicates df) as Hin.
    { apply elem_of_duplicates_names. lia. }
    rewrite Hnil in Hin. by apply elem_of_nil in Hin.
  - intros Hall. apply elem_of_nil_inv. intros r [Hr _]%elem_of_duplicates.
    specialize (Hall (Name r)). lia.
Qed.

Lemma elem_of_unique n l : n ∈ unique l ↔ n ∈ l.
Proof.
  induction l as [|x l IH]; [done|]. cbn [unique].
  rewrite !elem_of_cons, list_elem_of_filter, IH.
  destruct (decide (n = x)); tauto.
Qed.

Lemma NoDup_unique l : NoDup (unique l).
Proof.
  induction l as [|x l IH]; [apply NoDup_nil_2|]. cbn [unique].
  apply NoDup_cons. split.
  - rewrite list_elem_of_filter. by intros [? _].
  - by apply NoDup_filter.
Qed.

End verify_facts.


(** * The guest synthesizer *)

(** C10: [generate_guests] is a function of the count alone; it returns
    exactly [count] records, the one at position [i] (from 0) is named
    "Guest i+1", has business title "Guest", workshop facilitator "N" and
    every other column blank, the names are pairwise distinct, and a count
    of zero gives the empty sequence. *)
Theorem generate_guests_spec (count : nat) :
  length (generate_guests count) = count
  ∧ (∀ i, i < count →
       generate_guests count !! i
       = Some (mkRow (Text "") (Text "") ("Guest " +:+ pretty (S i)) "Guest"
                     "" "" "" "" "" "" "" "N"))
  ∧ NoDup (Name <$> generate_guests count)
  ∧ generate_guests 0 = []
  ∧ Name <$> generate_guests 3 = ["Guest 1"; "Guest 2"; "Guest 3"].
Proof.
  split_and!.
  - apply length_generate_guests.
  - intros i Hi. unfold generate_guests.
    by rewrite list_lookup_fmap, lookup_seq_lt.
  - apply NoDup_guest_names.
  - done.
  - done.
Qed.

(** * The generated plan *)

Section plan_claims.
Variable sample : DataFrame → DataFrame.
Hypothesis sample_permutation : ∀ df, sample df ≡ₚ df.

(** C3: the plan holds exactly [len(R) + num_guests] records, and they
    are the records of the roster and the guests: up to order and up to
    the two assignment columns nothing is lost and nothing is added. *)
Theorem plan_total_count (R : DataFrame) (ng nt ts : nat) :
  length (create_day2_seating sample (init R ng nt ts)) = length R + ng
  ∧ unassigned <$> create_day2_seating sample (init R ng nt ts)
    ≡ₚ unassigned <$> (R ++ generate_guests ng).
Proof.
  split.
  - by apply length_create_day2_seating.
  - by apply (create_day2_seating_unassigned sample sample_permutation
                (init R ng nt ts)).
Qed.

(** C4: when the records fit, i.e. [len(R) + num_guests <= num_tables *
    table_size], every table of the plan holds at most [table_size]
    rows, and every row carries a table number in [1, num_tables] and a
    seat number in [1, table_size]. *)
Theorem plan_within_capacity (R : DataFrame) (ng nt ts : nat) :
  length R + ng ≤ nt * ts →
  (∀ t, length (table_rows t (create_day2_seating sample (init R ng nt ts))) ≤ ts)
  ∧ Forall (λ r, ∃ t s, Table_No r = Int t ∧ Seat_No r = Int s
                        ∧ 1 ≤ t ≤ nt ∧ 1 ≤ s ≤ ts)
           (create_day2_seating sample (init R ng nt ts)).
Proof.
  intros Hcap.
  assert (length (combined_df sample (init R ng nt ts)) ≤ nt * ts) as Hlen.
  { rewrite length_combined_df by done. cbn [init attendees_df guests].
    by rewrite length_generate_guests. }
  split.
  - intros t. rewrite length_table_rows, tables_init.
    by apply deal_within_capacity.
  - apply Forall_forall. intros r Hr.
    apply elem_of_seat_tables in Hr as (t & members & i & member & HT & Hi & ->).
    apply tables_get_elem in HT; [|apply deal_NoDup].
    apply lookup_lt_Some in Hi.
    destruct (deal_within_capacity nt ts _ t Hlen) as [Hsize Hused].
    rewrite tables_init in HT. rewrite HT in Hsize, Hused.
    exists t, (S i). split_and!; try done; try lia.
    all: apply Hused; lia.
Qed.

(** C5: in every table of the plan the seat numbers are 1, 2, ..., k,
    where k is the number of rows of the table; the row on seat [i+1] is
    the record dealt into the table in position [i], and the records of
    a table were dealt in the order of the shuffled sequence. *)
Theorem seats_contiguous (self : SeatingPlanGenerator) (t : nat) :
  Seat_No <$> table_rows t (create_day2_seating sample self)
    = Int <$> seq 1 (length (table_rows t (create_day2_seating sample self)))
  ∧ (∀ i, table_rows t (create_day2_seating sample self) !! i
          = assign_seat t (S i) <$> tables_get t (tables sample self) !! i)
  ∧ tables_get t (tables sample self) `sublist_of` combined_df sample self.
Proof.
  rewrite table_rows_create_day2_seating. split_and!.
  - by rewrite Seat_No_seat_members, length_seat_members.
  - intros i. apply seat_members_lookup.
  - apply deal_sublist.
Qed.

(** C7: beyond capacity, i.e. [len(R) + num_guests > num_tables *
    table_size], the tables are those obtained by dealing the first
    [num_tables * table_size] shuffled records, with every later record
    appended to table 1, in order; in the plan, table 1 seats exactly
    these records and no table from 2 on holds more than [table_size]
    rows. *)
Theorem overflow_goes_to_table_1 (R : DataFrame) (ng nt ts : nat) :
  nt * ts < length R + ng →
  tables_get 1 (tables sample (init R ng nt ts))
    = tables_get 1 (deal nt ts (take (nt * ts) (combined_df sample (init R ng nt ts))))
      ++ drop (nt * ts) (combined_df sample (init R ng nt ts))
  ∧ (∀ t, t ≠ 1 →
       tables_get t (tables sample (init R ng nt ts))
       = tables_get t (deal nt ts (take (nt * ts) (combined_df sample (init R ng nt ts)))))
  ∧ (∀ i, table_rows 1 (create_day2_seating sample (init R ng nt ts)) !! i
          = assign_seat 1 (S i) <$>
              (tables_get 1 (deal nt ts (take (nt * ts) (combined_df sample (init R ng nt ts))))
               ++ drop (nt * ts) (combined_df sample (init R ng nt ts))) !! i)
  ∧ (∀ t, 2 ≤ t →
       length (table_rows t (create_day2_seating sample (init R ng nt ts))) ≤ ts).
Proof.
  intros Hcap.
  assert (nt * ts < length (combined_df sample (init R ng nt ts))) as Hlen.
  { rewrite length_combined_df by done. cbn [init attendees_df guests].
    by rewrite length_generate_guests. }
  pose proof (λ t, deal_overflow nt ts _ t Hlen) as Hover.
  rewrite <-tables_init in Hover.
  split_and!.
  - by rewrite (Hover 1), decide_True.
  - intros t Ht. by rewrite (Hover t), decide_False.
  - intros i. rewrite table_rows_create_day2_seating, seat_members_lookup.
    by rewrite (Hover 1), decide_True.
  - intros t Ht. rewrite length_table_rows, (Hover t), decide_False by lia.
    apply deal_within_capacity. rewrite length_take. lia.
Qed.

(** C1, amended: beyond capacity all records are still dealt and none
    is dropped, but the excess goes to table 1 alone: no table other
    than table 1 holds more than [table_size] rows and, when there is at
    least one table, table 1 holds [table_size] rows plus all the
    [len(R) + num_guests - num_tables * table_size] rows in excess while
    each table 2..num_tables holds exactly [table_size] rows. *)
Theorem overflow_on_table_1_only (R : DataFrame) (ng nt ts : nat) :
  nt * ts < length R + ng →
  length (create_day2_seating sample (init R ng nt ts)) = length R + ng
  ∧ unassigned <$> create_day2_seating sample (init R ng nt ts)
    ≡ₚ unassigned <$> (R ++ generate_guests ng)
  ∧ (∀ t, t ≠ 1 →
       length (table_rows t (create_day2_seating sample (init R ng nt ts))) ≤ ts)
  ∧ (1 ≤ nt →
       length (table_rows 1 (create_day2_seating sample (init R ng nt ts)))
         = ts + (length R + ng - nt * ts)
       ∧ ∀ t, 2 ≤ t ≤ nt →
           length (table_rows t (create_day2_seating sample (init R ng nt ts))) = ts).
Proof.
  intros Hcap.
  assert (length (combined_df sample (init R ng nt ts)) = length R + ng) as Hlen.
  { rewrite length_combined_df by done. cbn [init attendees_df guests].
    by rewrite length_generate_guests. }
  split_and!.
  - by apply length_create_day2_seating.
  - by apply (create_day2_seating_unassigned sample sample_permutation
                (init R ng nt ts)).
  - intros t Ht. rewrite length_table_rows, tables_init.
    rewrite (deal_overflow nt ts _ t), decide_False by (done || lia).
    apply deal_within_capacity. rewrite length_take. lia.
  - intros Hnt.
    destruct (deal_beyond_capacity nt ts (combined_df sample (init R ng nt ts)))
      as (H1 & Hfull & _); [lia|done|].
    rewrite <-tables_init in H1, Hfull.
    split.
    + by rewrite length_table_rows, <-Hlen.
    + intros t Ht. rewrite length_table_rows. by apply Hfull.
Qed.

(** C2, amended: if at least one record is dealt, no two roster
    records share a name and no roster name is one of the guest labels
    "Guest 1", ..., "Guest num_guests", then [create_day2_seating]
    followed by [verify_seating_plan] returns the success, whatever the
    shuffle. *)
Theorem verification_succeeds (R : DataFrame) (ng nt ts : nat) :
  0 < length R + ng →
  NoDup (Name <$> R) →
  (∀ i, 1 ≤ i ≤ ng → "Guest " +:+ pretty i ∉ Name <$> R) →
  verify_seating_plan_frame (init R ng nt ts) (day2_df sample (init R ng nt ts))
  = Returned (true, "Seating plan is valid.").
Proof.
  intros Hpos HR Hfresh.
  rewrite (day2_df_Columns sample sample_permutation) by done.
  cbn [verify_seating_plan_frame]. f_equal.
  pose proof (create_day2_seating_names sample sample_permutation
                (init R ng nt ts)) as Hnames.
  cbn [init attendees_df guests] in Hnames. rewrite fmap_app in Hnames.
  assert (NoDup (Name <$> create_day2_seating sample (init R ng nt ts))) as Hplan.
  { rewrite Hnames. apply NoDup_app. split_and!; [done| |apply NoDup_guest_names].
    intros n Hn. rewrite guest_names.
    intros (i & -> & [Hi1 Hi2]%elem_of_seq)%list_elem_of_fmap.
    apply (Hfresh i); [lia|done]. }
  unfold verify_seating_plan.
  rewrite decide_False; [|by intros []; apply duplicates_nil].
  rewrite decide_False; [done|]. intros []. apply set_eq. intros n.
  rewrite elem_of_difference, !elem_of_list_to_set, Hnames, elem_of_app.
  cbn [init attendees_df]. split; [tauto|]. by intros ?%elem_of_empty.
Qed.
End plan_claims.

(** * The deal loop does not look at the records *)

Section deal_rel.
Context {A B : Type} (P : A → B → Prop).
Variables num_tables table_size : nat.

Lemma tables_rel_get k T1 T2 :
  tables_rel P T1 T2 → Forall2 P (tables_get k T1) (tables_get k T2).
Proof.
  induction 1 as [|[k1 m1] [k2 m2] T1 T2 [Hk Hm] _ IH]; [constructor|].
  cbn [fst snd] in *. subst k2. cbn [tables_get]. by case_decide.
Qed.

Lemma tables_rel_append k x y T1 T2 :
  P x y → tables_rel P T1 T2 →
  tables_rel P (tables_append k x T1) (tables_append k y T2).
Proof.
  intros Hxy. induction 1 as [|[k1 m1] [k2 m2] T1 T2 [Hk Hm] HT IH].
  - repeat constructor; done.
  - cbn [fst snd] in *. subst k2. cbn [tables_append].
    case_decide; constructor; try done; cbn [fst snd].
    split; [done|]. apply Forall2_app; [done|by constructor].
Qed.

Lemma deal_step_rel st1 st2 x y :
  tables_rel P st1.1 st2.1 → st1.2 = st2.2 → P x y →
  tables_rel P (deal_step num_tables table_size st1 x).1
               (deal_step num_tables table_size st2 y).1
  ∧ (deal_step num_tables table_size st1 x).2
    = (deal_step num_tables table_size st2 y).2.
Proof.
  destruct st1 as [T1 tn], st2 as [T2 tn2]. cbn [fst snd].
  intros HT <- Hxy. cbn [deal_step fst snd].
  pose proof (tables_rel_append tn x y T1 T2 Hxy HT) as HT'.
  split; [done|].
  by rewrite (Forall2_length _ _ _ (tables_rel_get tn _ _ HT')).
Qed.

Lemma deal_from_rel st1 st2 l1 l2 :
  tables_rel P st1.1 st2.1 → st1.2 = st2.2 → Forall2 P l1 l2 →
  tables_rel P (deal_from num_tables table_size st1 l1).1
               (deal_from num_tables table_size st2 l2).1.
Proof.
  intros HT Htn Hl. revert st1 st2 HT Htn.
  induction Hl as [|x y l1 l2 Hxy _ IH]; intros st1 st2 HT Htn; [done|].
  rewrite !deal_from_cons.
  destruct (deal_step_rel st1 st2 x y HT Htn Hxy) as [HT' Htn'].
  by apply IH.
Qed.
End deal_rel.

(** * The objects created by [create_day2_seating] *)

Section obj_facts.
Implicit Types (σ : Obj.store) (s df : Obj.ref) (row : Row).

Lemma extends_ret {A} (a : A) σ Q : Q a σ → extends (mret a) σ Q.
Proof. intros HQ. by exists a, σ. Qed.

Lemma extends_bind {A B} (c : Obj.M A) (k : A → Obj.M B) σ Q :
  extends c σ (λ a σ', extends (k a) σ' Q) → extends (c ≫= k) σ Q.
Proof.
  intros (a & σ' & Hc & Hσ & b & σ'' & Hk & Hσ' & HQ).
  exists b, σ''. split_and!; [|by trans σ'|done].
  unfold mbind, Obj.M_bind. by rewrite Hc.
Qed.

Lemma extends_mono {A} (c : Obj.M A) σ (Q Q' : A → Obj.store → Prop) :
  extends c σ Q → (∀ a σ', σ ⊆ σ' → Q a σ' → Q' a σ') → extends c σ Q'.
Proof. intros (a & σ' & Hc & Hσ & HQ) HQ'. exists a, σ'. auto. Qed.

Lemma extends_new o σ Q :
  (∀ r, σ !! r = None → Q r (<[r := o]> σ)) → extends (Obj.new o) σ Q.
Proof.
  intros HQ.
  assert (σ !! fresh (dom σ) = None) as Hfresh.
  { apply not_elem_of_dom, is_fresh. }
  exists (fresh (dom σ)), (<[fresh (dom σ) := o]> σ).
  split_and!; [done|by apply insert_subseteq|by apply HQ].
Qed.

Lemma extends_frame_rows df rows σ Q :
  σ !! df = Some (Obj.Frame rows) → Q rows σ → extends (Obj.frame_rows df) σ Q.
Proof.
  intros Hdf HQ. exists rows, σ. split_and!; [|done..].
  unfold Obj.frame_rows. by rewrite Hdf.
Qed.

Lemma holds_weaken σ σ' s row : σ ⊆ σ' → holds σ s row → holds σ' s row.
Proof. intros Hσ Hs. by apply (lookup_weaken σ σ'). Qed.

Lemma Forall2_holds_weaken σ σ' (l : list Obj.ref) (rows : list Row) :
  σ ⊆ σ' → Forall2 (holds σ) l rows → Forall2 (holds σ') l rows.
Proof.
  intros Hσ Hl. eapply Forall2_impl; [done|].
  intros s row. by apply holds_weaken.
Qed.

Lemma tables_rel_holds_weaken σ σ' T1 T2 :
  σ ⊆ σ' → tables_rel (holds σ) T1 T2 → tables_rel (holds σ') T1 T2.
Proof.
  intros Hσ HT. eapply Forall2_impl; [done|]. intros e1 e2 [Hk Hm].
  split; [done|]. by apply (Forall2_holds_weaken σ).
Qed.

(** The body of the seat loop: the copy is a new object, and it is
    the copy that the two assignments update. *)
Lemma extends_copy_assign s row (f g : Row → Row) (acc : list Obj.ref) σ Q :
  holds σ s row →
  (∀ r σ', holds σ' r (g (f row)) → σ ⊆ σ' → Q (acc ++ [r]) σ') →
  extends (member ← Obj.copy s;
           Obj.setitem member f;;
           Obj.setitem member g;;
           mret (acc ++ [member])) σ Q.
Proof.
  intros Hs HQ.
  assert (σ !! fresh (dom σ) = None) as Hfresh.
  { apply not_elem_of_dom, is_fresh. }
  exists (acc ++ [fresh (dom σ)]), (<[fresh (dom σ) := Obj.Series (g (f row))]> σ).
  split_and!.
  - unfold Obj.copy, Obj.series_row, Obj.new, Obj.setitem, mbind, mret,
      Obj.M_bind, Obj.M_ret.
    rewrite Hs. cbn zeta. rewrite lookup_insert_eq, insert_insert_eq.
    by rewrite lookup_insert_eq, insert_insert_eq.
  - by apply insert_subseteq.
  - apply HQ; [apply lookup_insert_eq|by apply insert_subseteq].
Qed.

(** The deal loop over Series objects: one new Series per row. *)
Lemma extends_deal_loop nt ts (rows : list Row) st σ :
  extends
    (Obj.for_each rows (λ st row,
       attendee ← Obj.new (Obj.Series row);
       mret (deal_step nt ts st attendee)) st) σ
    (λ st' σ', ∃ series,
       Forall2 (holds σ') series rows ∧ st' = deal_from nt ts st series).
Proof.
  revert st σ. induction rows as [|row rows IH]; intros st σ.
  - apply extends_ret. exists []. by split; [constructor|].
  - cbn [Obj.for_each]. do 2 apply extends_bind.
    apply extends_new. intros r Hr. apply extends_ret.
    eapply extends_mono; [apply IH|].
    intros st' σ' Hσ (series & Hseries & ->).
    exists (r :: series). split; [|done]. constructor; [|done].
    apply (holds_weaken _ _ _ _ Hσ). apply lookup_insert_eq.
Qed.

(** The inner seat loop: one new Series per member, numbered from
    [start]. *)
Lemma extends_seat_members t (members : list Obj.ref) (rows : list Row)
    start acc σ :
  Forall2 (holds σ) members rows →
  extends
    (Obj.for_each (Obj.enumerate start members)
       (λ day2_seating '(seat_no, member),
          member ← Obj.copy member;
          Obj.setitem member (set_Table_No (Int t));;
          Obj.setitem member (set_Seat_No (Int seat_no));;
          mret (day2_seating ++ [member])) acc) σ
    (λ acc' σ', ∃ out,
       acc' = acc ++ out
       ∧ Forall2 (holds σ') out (imap (λ i, assign_seat t (start + i)) rows)).
Proof.
  intros Hm. revert members start acc σ Hm.
  induction rows as [|row rows IH]; intros members start acc σ Hm.
  - apply Forall2_nil_inv_r in Hm as ->. apply extends_ret.
    exists []. by rewrite (right_id_L [] (++)).
  - apply Forall2_cons_inv_r in Hm as (s & members' & Hs & Hm & ->).
    change (Obj.enumerate start (s :: members'))
      with ((start, s) :: Obj.enumerate (S start) members').
    cbn [Obj.for_each]. apply extends_bind.
    apply (extends_copy_assign s row); [done|].
    intros r σ1 Hr Hσ1.
    eapply extends_mono;
      [apply (IH members' (S start)), (Forall2_holds_weaken σ); done|].
    intros acc' σ' Hσ' (out & -> & Hout).
    exists (r :: out). split; [by rewrite <-(assoc_L (++))|].
    rewrite imap_cons. constructor.
    + rewrite Nat.add_0_r. by apply (holds_weaken σ1).
    + erewrite imap_ext; [done|]. intros i x _. cbn. f_equal. lia.
Qed.

(** The outer seat loop. *)
Lemma extends_seat_tables (T1 : tables_t Obj.ref) (T2 : tables_t Row) acc σ :
  tables_rel (holds σ) T1 T2 →
  extends
    (Obj.for_each T1 (λ day2_seating '(table_no, members),
       Obj.for_each (Obj.enumerate 1 members)
         (λ day2_seating '(seat_no, member),
            member ← Obj.copy member;
            Obj.setitem member (set_Table_No (Int table_no));;
            Obj.setitem member (set_Seat_No (Int seat_no));;
            mret (day2_seating ++ [member])) day2_seating) acc) σ
    (λ acc' σ', ∃ out,
       acc' = acc ++ out ∧ Forall2 (holds σ') out (seat_tables T2)).
Proof.
  intros HT. revert acc σ T1 HT.
  induction T2 as [|[t rows] T2 IH]; intros acc σ T1 HT.
  - apply Forall2_nil_inv_r in HT as ->. apply extends_ret.
    exists []. by rewrite (right_id_L [] (++)).
  - apply Forall2_cons_inv_r in HT as ([t' members] & T1' & [Ht Hm] & HT & ->).
    cbn [fst snd] in Ht, Hm. subst t'.
    cbn [Obj.for_each]. apply extends_bind.
    eapply extends_mono; [by apply (extends_seat_members t members rows 1)|].
    intros acc1 σ1 Hσ1 (out1 & -> & Hout1).
    eapply extends_mono;
      [apply IH, (tables_rel_holds_weaken σ); done|].
    intros acc' σ' Hσ' (out & -> & Hout).
    exists (out1 ++ out). split; [by rewrite (assoc_L (++))|].
    rewrite seat_tables_cons. apply Forall2_app; [|done].
    by apply (Forall2_holds_weaken σ1).
Qed.

(** [pd.DataFrame(day2_seating)] reads the Series it is given. *)
Lemma for_each_series_row (series : list Obj.ref) (rows acc : list Row) σ :
  Forall2 (holds σ) series rows →
  Obj.for_each series
    (λ rows s, row ← Obj.series_row s; mret (rows ++ [row])) acc σ
  = Some (acc ++ rows, σ).
Proof.
  intros Hs. revert acc.
  induction Hs as [|s row series rows Hs _ IH]; intros acc.
  - by rewrite (right_id_L [] (++)).
  - cbn [Obj.for_each]. unfold mbind, Obj.M_bind, Obj.series_row at 1.
    rewrite Hs. unfold mret, Obj.M_ret.
    unfold mbind, Obj.M_bind in IH. rewrite IH.
    by rewrite <-(assoc_L (++)).
Qed.
End obj_facts.

(** [__init__] adds the frame of the guests to the store. *)
Lemma extends_init attendees ng nt ts σ :
  extends (Obj.init attendees ng nt ts) σ (λ self σ',
    Obj.attendees_df self = attendees
    ∧ Obj.num_guests self = ng
    ∧ Obj.num_tables self = nt
    ∧ Obj.table_size self = ts
    ∧ σ !! Obj.guests self = None
    ∧ σ' !! Obj.guests self = Some (Obj.Frame (generate_guests ng))).
Proof.
  unfold Obj.init, Obj.generate_guests.
  apply extends_bind, extends_new. intros r Hr. apply extends_ret.
  split_and!; try done. apply lookup_insert_eq.
Qed.

Section obj_claims.
Variable sample : DataFrame → DataFrame.

(** C9: [create_day2_seating] runs to completion from any store in
    which the two frames of the generator exist; it leaves the roster
    frame, and every other object that existed before the call, exactly
    as it was, and returns a frame that did not exist before, holding
    the plan. *)
Theorem create_day2_seating_frame
    (self : Obj.SeatingPlanGenerator) (R G : DataFrame) (σ : Obj.store) :
  σ !! Obj.attendees_df self = Some (Obj.Frame R) →
  σ !! Obj.guests self = Some (Obj.Frame G) →
  ∃ day2_df σ',
    Obj.create_day2_seating sample self σ = Some (day2_df, σ')
    ∧ σ' !! Obj.attendees_df self = Some (Obj.Frame R)
    ∧ (∀ r o, σ !! r = Some o → σ' !! r = Some o)
    ∧ σ !! day2_df = None
    ∧ σ' !! day2_df
      = Some (Obj.Frame
                (create_day2_seating sample
                   (mkGenerator R (Obj.num_guests self) (Obj.num_tables self)
                                (Obj.table_size self) G))).
Proof.
  intros HR HG.
  cut (extends (Obj.create_day2_seating sample self) σ (λ day2_df σ',
         σ !! day2_df = None
         ∧ σ' !! day2_df
           = Some (Obj.Frame
                     (create_day2_seating sample
                        (mkGenerator R (Obj.num_guests self) (Obj.num_tables self)
                                     (Obj.table_size self) G))))).
  { intros (day2_df & σ' & Hrun & Hσ & Hnew & Hplan).
    exists day2_df, σ'. split_and!; try done.
    - by apply (lookup_weaken σ σ').
    - intros r o Hr. by apply (lookup_weaken σ σ'). }
  unfold Obj.create_day2_seating.
  (* pd.concat *)
  apply extends_bind. unfold Obj.concat.
  apply extends_bind, (extends_frame_rows _ R); [done|].
  apply extends_bind, (extends_frame_rows _ G); [done|].
  apply extends_new. intros c1 Hc1.
  pose proof (insert_subseteq σ c1 (Obj.Frame (R ++ G)) Hc1) as Hσ1.
  set (σ1 := <[c1 := Obj.Frame (R ++ G)]> σ) in *.
  (* sample *)
  apply extends_bind. unfold Obj.sample_frame.
  apply extends_bind, (extends_frame_rows _ (R ++ G)); [apply lookup_insert_eq|].
  apply extends_new. intros c2 Hc2.
  pose proof (insert_subseteq σ1 c2 (Obj.Frame (sample (R ++ G))) Hc2) as Hσ2.
  set (σ2 := <[c2 := Obj.Frame (sample (R ++ G))]> σ1) in *.
  apply extends_bind, (extends_frame_rows _ (sample (R ++ G)));
    [apply lookup_insert_eq|].
  (* the deal loop *)
  apply extends_bind.
  eapply extends_mono; [apply extends_deal_loop|].
  intros st σ3 Hσ3 (series & Hseries & ->).
  (* the seat loop *)
  apply extends_bind.
  eapply extends_mono.
  { apply (extends_seat_tables _
             (deal (Obj.num_tables self) (Obj.table_size self) (sample (R ++ G)))).
    apply deal_from_rel; [constructor|done|done]. }
  intros day2_seating σ4 Hσ4 (out & -> & Hout).
  (* pd.DataFrame *)
  unfold Obj.DataFrame_of. apply extends_bind.
  exists (seat_tables
            (deal (Obj.num_tables self) (Obj.table_size self) (sample (R ++ G)))),
         σ4.
  split_and!; [by apply (for_each_series_row out _ [])|done|].
  apply extends_new. intros day2_df Hnew. split.
  - apply (lookup_weaken_None σ σ4); [done|].
    by trans σ1; [|trans σ2; [|trans σ3]].
  - apply lookup_insert_eq.
Qed.
End obj_claims.

(** * Scenarios *)

Lemma NoDup_attendees n : NoDup (Name <$> attendees n).
Proof.
  unfold attendees. rewrite <-list_fmap_compose.
  apply NoDup_fmap_2; [|apply NoDup_seq].
  intros i j Hij. unfold compose in Hij. cbn [Name person] in Hij.
  by simplify_eq.
Qed.

Lemma NoDup_alice_bob_carol : NoDup (Name <$> alice_bob_carol).
Proof. apply (bool_decide_unpack _). by vm_compute. Qed.

Lemma guest_not_alice_bob_carol (i : nat) :
  "Guest " +:+ pretty i ∉ Name <$> alice_bob_carol.
Proof.
  unfold alice_bob_carol. rewrite !fmap_cons, fmap_nil. cbn [Name person].
  rewrite !not_elem_of_cons. split_and!; try (intros [=]).
  apply not_elem_of_nil.
Qed.

(** C1 as stated fails on its own scenario: with 20 distinct records, no
    guest, 2 tables and 5 seats per table, table 1 ends with 15 rows and
    table 2 with 5, which is not more than 5. *)
Lemma overflow_spares_table_2 :
  length (attendees 20) = 20
  ∧ NoDup (Name <$> attendees 20)
  ∧ length (table_rows 1 (create_day2_seating id (init (attendees 20) 0 2 5))) = 15
  ∧ length (table_rows 2 (create_day2_seating id (init (attendees 20) 0 2 5))) = 5
  ∧ ¬ (5 < length (table_rows 2 (create_day2_seating id (init (attendees 20) 0 2 5)))).
Proof.
  split_and!; try (vm_compute; reflexivity).
  - apply NoDup_attendees.
  - vm_compute. lia.
Qed.

(** C2 as stated fails for a roster that carries a guest label: the
    roster has no duplicate name, and the verification reports one. *)
Lemma guest_label_in_roster :
  NoDup (Name <$> [person "Guest 1"])
  ∧ verify_seating_plan (init_default [person "Guest 1"])
      (create_day2_seating id (init_default [person "Guest 1"]))
    = (false, "Duplicate entries found: Guest 1").
Proof. split; [apply NoDup_singleton|]. vm_compute. reflexivity. Qed.

(** Alice, Bob and Carol with the default configuration, shuffled by
    reversal: 10 records, all within capacity, and a valid plan. *)
Lemma plan_total_count_scenario :
  length (create_day2_seating reverse (init alice_bob_carol 7 9 7)) = 3 + 7
  ∧ unassigned <$> create_day2_seating reverse (init alice_bob_carol 7 9 7)
    ≡ₚ unassigned <$> (alice_bob_carol ++ generate_guests 7).
Proof.
  exact (plan_total_count reverse reverse_Permutation alice_bob_carol 7 9 7).
Defined.

Lemma plan_within_capacity_scenario :
  3 + 7 ≤ 9 * 7
  ∧ (∀ t, length (table_rows t
            (create_day2_seating reverse (init alice_bob_carol 7 9 7))) ≤ 7)
  ∧ Forall (λ r, ∃ t s, Table_No r = Int t ∧ Seat_No r = Int s
                        ∧ 1 ≤ t ≤ 9 ∧ 1 ≤ s ≤ 7)
           (create_day2_seating reverse (init alice_bob_carol 7 9 7)).
Proof.
  assert (3 + 7 ≤ 9 * 7) as Hfit by (vm_compute; lia).
  split; [exact Hfit|].
  exact (plan_within_capacity reverse reverse_Permutation alice_bob_carol 7 9 7 Hfit).
Defined.

(** Twenty records for two tables of five, shuffled by reversal. *)
Lemma overflow_goes_to_table_1_scenario :
  2 * 5 < 20 + 0
  ∧ ∀ t, 2 ≤ t →
      length (table_rows t (create_day2_seating reverse (init (attendees 20) 0 2 5))) ≤ 5.
Proof.
  assert (2 * 5 < length (attendees 20) + 0) as Hover by (vm_compute; lia).
  split; [exact Hover|].
  exact (proj2 (proj2 (proj2
    (overflow_goes_to_table_1 reverse reverse_Permutation (attendees 20) 0 2 5 Hover)))).
Defined.

Lemma overflow_on_table_1_only_scenario :
  2 * 5 < 20 + 0
  ∧ length (create_day2_seating reverse (init (attendees 20) 0 2 5)) = 20
  ∧ length (table_rows 1 (create_day2_seating reverse (init (attendees 20) 0 2 5))) = 15
  ∧ length (table_rows 2 (create_day2_seating reverse (init (attendees 20) 0 2 5))) = 5.
Proof.
  assert (2 * 5 < length (attendees 20) + 0) as Hover by (vm_compute; lia).
  split; [exact Hover|].
  destruct (overflow_on_table_1_only reverse reverse_Permutation
              (attendees 20) 0 2 5 Hover) as (Hall & _ & _ & Hfirst).
  destruct Hfirst as [H1 H2]; [lia|].
  split_and!; [exact Hall|exact H1|apply H2; lia].
Defined.

Lemma verification_succeeds_scenario :
  verify_seating_plan_frame (init alice_bob_carol 7 9 7)
    (day2_df reverse (init alice_bob_carol 7 9 7))
  = Returned (true, "Seating plan is valid.").
Proof.
  assert (0 < length alice_bob_carol + 7) as Hpos by (vm_compute; lia).
  exact (verification_succeeds reverse reverse_Permutation alice_bob_carol 7 9 7
           Hpos NoDup_alice_bob_carol (λ i _, guest_not_alice_bob_carol i)).
Defined.

(** A store with the roster at reference 1 and the guests at
    reference 2. *)
Lemma create_day2_seating_frame_scenario :
  ∃ day2_df σ',
    Obj.create_day2_seating reverse (Obj.mkGenerator 1 7 9 7 2)
      {[ 1%positive := Obj.Frame alice_bob_carol;
         2%positive := Obj.Frame (generate_guests 7) ]}
    = Some (day2_df, σ')
    ∧ σ' !! 1%positive = Some (Obj.Frame alice_bob_carol).
Proof.
  destruct (create_day2_seating_frame reverse (Obj.mkGenerator 1 7 9 7 2)
              alice_bob_carol (generate_guests 7)
              {[ 1%positive := Obj.Frame alice_bob_carol;
                 2%positive := Obj.Frame (generate_guests 7) ]})
    as (day2_df & σ' & Hrun & Hroster & _);
    [vm_compute; reflexivity..|].
  exists day2_df, σ'. split; [exact Hrun|exact Hroster].
Defined.

(** * More on the deal loop *)

Section deal_layout.
Context {A : Type}.
Variables num_tables table_size : nat.
Implicit Types (T : tables_t A) (l : list A) (t : nat).

(** The keys of the dictionary are 1, 2, ..., m, inserted in that
    order, and the counter is at most one past the last key. *)
Lemma deal_from_keys st l m :
  st.1.*1 = seq 1 m → 1 ≤ st.2 ≤ S m →
  ∃ m', (deal_from num_tables table_size st l).1.*1 = seq 1 m'.
Proof.
  revert st m. induction l as [|x l IH]; intros [T tn] m HT Htn.
  - by exists m.
  - rewrite deal_from_cons. cbn [fst snd] in *.
    destruct (decide (tn ∈ T.*1)) as [Hin|Hin].
    + apply (IH _ m).
      * by rewrite deal_step_tables, tables_append_keys, decide_True.
      * cbn [deal_step snd]. rewrite HT, elem_of_seq in Hin.
        repeat case_decide; lia.
    + assert (tn = S m) as ->.
      { rewrite HT, elem_of_seq in Hin. lia. }
      apply (IH _ (S m)).
      * rewrite deal_step_tables, tables_append_keys, decide_False by done.
        by rewrite HT, seq_S.
      * cbn [deal_step snd]. repeat case_decide; lia.
Qed.

Lemma deal_keys l : ∃ m, (deal num_tables table_size l).*1 = seq 1 m.
Proof. apply (deal_from_keys ([], 1) l 0); cbn; [done|lia]. Qed.

(** No table outside [1 .. max 1 num_tables] ever receives a record. *)
Lemma deal_tables_used l t :
  0 < length (tables_get t (deal num_tables table_size l)) →
  1 ≤ t ≤ max 1 num_tables.
Proof.
  destruct (dealing_deal num_tables table_size l)
    as [q r Hi Hr Hq _ Hfull Hcur Hnone
       |Hnt Hts Hi _ H1 Hfull Hnone
       |Hdeg _ H1 Hnone]; intros Ht.
  - destruct (decide (t = 0 ∨ S q < t)) as [Hout|]; [|lia].
    rewrite Hnone in Ht by done. lia.
  - destruct (decide (t = 0 ∨ num_tables < t)) as [Hout|]; [|lia].
    rewrite Hnone in Ht by done. lia.
  - destruct (decide (t = 1)) as [->|Hne]; [lia|].
    rewrite Hnone in Ht by done. lia.
Qed.

(** Within capacity, table [t] holds the [t]-th block of [table_size]
    consecutive records. *)
Lemma deal_blocks l t :
  1 ≤ num_tables → 1 ≤ table_size → length l ≤ num_tables * table_size →
  1 ≤ t →
  tables_get t (deal num_tables table_size l)
  = take table_size (drop ((t - 1) * table_size) l).
Proof.
  intros Hnt Hts. revert t.
  induction l as [|x p IH] using rev_ind; intros t Hcap Ht.
  - by rewrite drop_nil, take_nil.
  - rewrite length_app in Hcap. cbn [length] in Hcap.
    specialize (λ t, IH t ltac:(lia)).
    pose proof (dealing_deal num_tables table_size p) as HI.
    unfold deal in *. rewrite deal_from_app.
    destruct (deal_from num_tables table_size ([], 1) p) as [T tn] eqn:E.
    cbn [fst snd] in *.
    rewrite deal_from_cons. cbn [deal_from foldl]. rewrite deal_step_tables.
    rewrite tables_get_append.
    destruct HI as [q r Hi Hr Hq -> Hfull Hcur Hnone
                   |_ _ Hi _ _ _ _
                   |Hdeg _ _ _]; [|lia|lia].
    destruct (decide (t = S q)) as [->|Hne].
    + rewrite IH by lia.
      replace (S q - 1) with q by lia.
      rewrite drop_app_le by nia.
      assert (length (drop (q * table_size) p) = r) as Hlen.
      { rewrite length_drop. lia. }
      rewrite (take_ge (drop _ p)) by lia.
      rewrite take_ge; [done|]. rewrite length_app. cbn [length]. lia.
    + rewrite IH by lia.
      destruct (decide (t ≤ q)) as [Hle|Hgt].
      * rewrite drop_app_le by nia.
        rewrite take_app_le; [done|]. rewrite length_drop. nia.
      * rewrite !drop_ge; [done| |].
        -- rewrite length_app. cbn [length]. nia.
        -- nia.
Qed.

(** In general, table 1 also holds every record beyond capacity. *)
Lemma deal_layout l t :
  1 ≤ table_size → 1 ≤ t ≤ num_tables →
  tables_get t (deal num_tables table_size l)
  = take table_size (drop ((t - 1) * table_size) l)
    ++ (if decide (t = 1) then drop (num_tables * table_size) l else []).
Proof.
  intros Hts Ht.
  destruct (decide (length l ≤ num_tables * table_size)) as [Hfit|Hover].
  - rewrite deal_blocks by lia.
    rewrite (drop_ge l (num_tables * table_size)) by done.
    case_decide; by rewrite (right_id_L [] (++)).
  - rewrite deal_overflow by lia.
    assert (take table_size
              (drop ((t - 1) * table_size) (take (num_tables * table_size) l))
            = take table_size (drop ((t - 1) * table_size) l)) as Htake.
    { rewrite !take_drop_commute, take_take. f_equal. f_equal. nia. }
    case_decide.
    + subst t. rewrite deal_blocks, Htake; [done|lia..|rewrite length_take; lia|lia].
    + rewrite deal_blocks, Htake, (right_id_L [] (++));
        [done|lia..|rewrite length_take; lia|lia].
Qed.

(** With at most one table, or with tables of size zero, the counter
    never leaves table 1. *)
Lemma deal_from_single m l :
  num_tables ≤ 1 ∨ table_size = 0 →
  deal_from num_tables table_size ([(1, m)], 1) l = ([(1, m ++ l)], 1).
Proof.
  intros Hcfg. revert m. induction l as [|x l IH]; intros m.
  - by rewrite (right_id_L [] (++)).
  - rewrite deal_from_cons.
    assert (deal_step num_tables table_size ([(1, m)], 1) x
            = ([(1, m ++ [x])], 1)) as ->.
    { rewrite (surjective_pairing (deal_step _ _ _ _)), deal_step_tables.
      cbn [deal_step snd]. rewrite length_get_append_eq.
      cbn [tables_append tables_get]. rewrite !(decide_True (P:=1 = 1)) by done.
      f_equal. repeat case_decide; lia. }
    by rewrite IH, <-(assoc_L (++)).
Qed.

Lemma deal_single l :
  num_tables ≤ 1 ∨ table_size = 0 →
  deal num_tables table_size l = if l is [] then [] else [(1, l)].
Proof.
  intros Hcfg. destruct l as [|x l]; [done|].
  unfold deal. rewrite deal_from_cons.
  assert (deal_step num_tables table_size ([], 1) x = ([(1, [x])], 1)) as ->.
  { rewrite (surjective_pairing (deal_step _ _ _ _)), deal_step_tables.
    cbn [deal_step snd]. rewrite length_get_append_eq.
    cbn [tables_append tables_get length].
    f_equal. repeat case_decide; lia. }
  by rewrite deal_from_single.
Qed.
End deal_layout.

(** * The layout of the plan *)

Section plan_layout.
Variable sample : DataFrame → DataFrame.
Implicit Types (self : SeatingPlanGenerator) (t : nat).

(** X1: with seats on the tables, table [t] of the plan seats, in order,
    the [t]-th block of [table_size] consecutive records of the shuffled
    sequence; table 1 seats after them every record beyond the first
    [num_tables * table_size]. *)
Theorem table_seats_block self t :
  1 ≤ table_size self → 1 ≤ t ≤ num_tables self →
  table_rows t (create_day2_seating sample self)
  = seat_members t
      (take (table_size self)
         (drop ((t - 1) * table_size self) (combined_df sample self))
       ++ (if decide (t = 1)
           then drop (num_tables self * table_size self) (combined_df sample self)
           else [])).
Proof.
  intros Hts Ht. rewrite table_rows_create_day2_seating.
  unfold tables. by rewrite deal_layout.
Qed.

(** X2: whatever the configuration and the number of records, every row
    of the plan carries an integer table number between 1 and
    [max 1 num_tables] and an integer seat number between 1 and the
    number of rows of its table: no table beyond [num_tables] is ever
    opened, and with [num_tables = 0] table 1 is used all the same. *)
Theorem plan_uses_declared_tables self :
  Forall (λ r, ∃ t s,
            Table_No r = Int t ∧ Seat_No r = Int s
            ∧ 1 ≤ t ≤ max 1 (num_tables self)
            ∧ 1 ≤ s ≤ length (table_rows t (create_day2_seating sample self)))
         (create_day2_seating sample self).
Proof.
  apply Forall_forall. intros r Hr.
  apply elem_of_seat_tables in Hr as (t & members & i & member & HT & Hi & ->).
  apply tables_get_elem in HT; [|apply deal_NoDup].
  apply lookup_lt_Some in Hi.
  exists t, (S i). split_and!; try done; try lia.
  - apply (deal_tables_used (num_tables self) (table_size self)
             (combined_df sample self)).
    fold (tables sample self). rewrite HT. lia.
  - apply (deal_tables_used (num_tables self) (table_size self)
             (combined_df sample self)).
    fold (tables sample self). rewrite HT. lia.
  - rewrite length_table_rows, HT. lia.
Qed.

Lemma seat_of_seat_members t (members : list Row) :
  seat_of <$> seat_members t members
  = Some <$> ((λ s, (t, s)) <$> seq 1 (length members)).
Proof.
  apply list_eq; intros i.
  rewrite !list_lookup_fmap, seat_members_lookup.
  destruct (members !! i) as [r|] eqn:Hi.
  - apply lookup_lt_Some in Hi. by rewrite lookup_seq_lt.
  - apply lookup_ge_None in Hi. by rewrite lookup_seq_ge.
Qed.

Lemma seat_of_seat_tables (T : tables_t Row) :
  seat_of <$> seat_tables T
  = Some <$> (T ≫= λ e, (λ s, (e.1, s)) <$> seq 1 (length e.2)).
Proof.
  induction T as [|[t members] T IH]; [done|].
  rewrite seat_tables_cons, bind_cons, !fmap_app, IH.
  by rewrite seat_of_seat_members.
Qed.

Lemma StronglySorted_seq j n : StronglySorted lt (seq j n).
Proof.
  revert j. induction n as [|n IH]; intros j; [constructor|].
  cbn [seq]. constructor; [apply IH|].
  apply Forall_forall. intros k Hk%elem_of_seq. lia.
Qed.

Lemma seats_sorted (T : tables_t Row) :
  StronglySorted lt T.*1 →
  StronglySorted seat_lt (T ≫= λ e, (λ s, (e.1, s)) <$> seq 1 (length e.2)).
Proof.
  induction T as [|[t members] T IH]; [constructor|].
  rewrite fmap_cons, StronglySorted_cons, bind_cons. cbn [fst snd].
  intros [Hlt HT]. apply StronglySorted_app_2.
  - intros p q (s & -> & _)%list_elem_of_fmap
      ([t' m'] & (s' & -> & _)%list_elem_of_fmap & Hin)%list_elem_of_bind.
    left. cbn [fst]. rewrite Forall_forall in Hlt. apply Hlt.
    apply list_elem_of_fmap. by exists (t', m').
  - apply (StronglySorted_fmap _ lt); [|apply StronglySorted_seq].
    intros s s' Hs. right. by split.
  - by apply IH.
Qed.

(** X3: the rows of the plan come in reading order: table after table
    in increasing table number, and within a table in increasing seat
    number; so no two rows of a plan share a table and a seat. *)
Theorem plan_in_reading_order self :
  ∃ seats,
    seat_of <$> create_day2_seating sample self = Some <$> seats
    ∧ StronglySorted seat_lt seats
    ∧ NoDup seats.
Proof.
  eexists. split; [apply seat_of_seat_tables|].
  assert (StronglySorted seat_lt
            (tables sample self ≫= λ e, (λ s, (e.1, s)) <$> seq 1 (length e.2)))
    as Hsorted.
  { apply seats_sorted.
    destruct (deal_keys (num_tables self) (table_size self)
                (combined_df sample self)) as [m Hm].
    unfold tables. rewrite Hm. apply StronglySorted_seq. }
  split; [done|].
  induction Hsorted as [|p seats _ IH Hp]; [apply NoDup_nil_2|].
  apply NoDup_cons. split; [|done].
  intros Hin. rewrite Forall_forall in Hp.
  destruct (Hp p Hin) as [?|[_ ?]]; lia.
Qed.

(** X4: with at most one table, or with tables of size zero, every
    record is seated at table 1, on seats 1, 2, ... in the order of the
    shuffled sequence. *)
Theorem single_table_plan self :
  num_tables self ≤ 1 ∨ table_size self = 0 →
  create_day2_seating sample self = seat_members 1 (combined_df sample self).
Proof.
  intros Hcfg. unfold create_day2_seating, tables.
  rewrite deal_single by done.
  destruct (combined_df sample self) as [|r l]; [done|].
  rewrite seat_tables_cons. apply (right_id_L [] (++)).
Qed.
End plan_layout.

(** * More on the verification *)

Section verify_more.
Implicit Types (self : SeatingPlanGenerator) (plan df : DataFrame) (n : string).

Lemma names_filter (P : string → Prop) `{∀ n, Decision (P n)} df :
  Name <$> filter (λ r, P (Name r)) df = filter P (Name <$> df).
Proof.
  induction df as [|r df IH]; [done|].
  rewrite fmap_cons, !filter_cons. case_decide; [|done].
  by rewrite fmap_cons, IH.
Qed.

Lemma occurrences_names n df :
  occurrences n df = length (filter (λ m, m = n) (Name <$> df)).
Proof.
  unfold occurrences.
  by rewrite <-(names_filter (λ m, m = n)), length_fmap.
Qed.

Lemma occurrences_Permutation n df df' :
  Name <$> df ≡ₚ Name <$> df' → occurrences n df = occurrences n df'.
Proof. intros Hperm. by rewrite !occurrences_names, Hperm. Qed.

Lemma names_duplicates df :
  Name <$> duplicates df
  = filter (λ n, 1 < length (filter (λ m, m = n) (Name <$> df))) (Name <$> df).
Proof.
  rewrite <-(names_filter
    (λ n, 1 < length (filter (λ m, m = n) (Name <$> df)))).
  f_equal. unfold duplicates. apply list_filter_iff. intros r.
  by rewrite <-occurrences_names.
Qed.

(** The verdict is the success exactly when the names of the plan are
    pairwise distinct and cover the names of the roster. *)
Lemma verify_true_iff self plan :
  (verify_seating_plan self plan).1 = true
  ↔ NoDup (Name <$> plan)
    ∧ ∀ n, n ∈ Name <$> attendees_df self → n ∈ Name <$> plan.
Proof.
  unfold verify_seating_plan.
  destruct (decide (duplicates plan ≠ [])) as [Hdup|Hdup]; cbn [fst].
  - split; [done|]. intros [Hnodup _]. by apply duplicates_nil in Hnodup.
  - assert (NoDup (Name <$> plan)) as Hnodup.
    { apply duplicates_nil. by destruct (decide (duplicates plan = [])). }
    destruct (decide (_ ≠ ∅)) as [Hmiss|Hmiss]; cbn [fst].
    + split; [done|]. intros [_ Hall]. destruct Hmiss.
      apply set_eq. intros n.
      rewrite elem_of_difference, !elem_of_list_to_set.
      split; [|by intros ?%elem_of_empty]. intros [Hin Hnot]. by apply Hall in Hin.
    + split; [|done]. intros _. split; [done|]. intros n Hn.
      destruct (decide (n ∈ Name <$> plan)) as [|Hnot]; [done|].
      destruct Hmiss. apply (non_empty_inhabited_L n).
      by rewrite elem_of_difference, !elem_of_list_to_set.
Qed.

(** When the names of the roster are all in the plan, the only failure
    is the report of duplicates. *)
Lemma verify_complete self plan :
  (∀ n, n ∈ Name <$> attendees_df self → n ∈ Name <$> plan) →
  verify_seating_plan self plan
  = if decide (duplicates plan ≠ [])
    then (false, "Duplicate entries found: "
                 +:+ String.concat ", " (unique (Name <$> duplicates plan)))
    else (true, "Seating plan is valid.").
Proof.
  intros Hall. unfold verify_seating_plan.
  case_decide; [done|]. rewrite decide_False; [done|].
  intros []. apply set_eq. intros n.
  rewrite elem_of_difference, !elem_of_list_to_set.
  split; [|by intros ?%elem_of_empty]. intros [Hin Hnot]. by apply Hall in Hin.
Qed.

(** X5: the verification reads the [Name] column only: two plans with
    the same names up to order get the same verdict, and two plans with
    the same names in the same order get the same verdict and message. *)
Theorem verify_reads_names_only self plan plan' :
  (Name <$> plan ≡ₚ Name <$> plan' →
   (verify_seating_plan self plan).1 = (verify_seating_plan self plan').1)
  ∧ (Name <$> plan = Name <$> plan' →
     verify_seating_plan self plan = verify_seating_plan self plan').
Proof.
  split.
  - intros Hperm. apply eq_true_iff_eq. rewrite !verify_true_iff.
    by setoid_rewrite Hperm.
  - intros Heq.
    assert (Name <$> duplicates plan = Name <$> duplicates plan') as Hdup.
    { by rewrite !names_duplicates, Heq. }
    unfold verify_seating_plan. rewrite Hdup, Heq.
    destruct (decide (duplicates plan ≠ [])) as [Hne|He];
      destruct (decide (duplicates plan' ≠ [])) as [Hne'|He']; try done.
    + destruct Hne.
      destruct (decide (duplicates plan' = [])) as [E|E]; [|by destruct He'].
      rewrite E in Hdup. by apply fmap_nil_inv in Hdup.
    + destruct Hne'.
      destruct (decide (duplicates plan = [])) as [E|E]; [|by destruct He].
      rewrite E in Hdup. symmetry in Hdup. by apply fmap_nil_inv in Hdup.
Qed.
End verify_more.

Section verify_generated.
Variable sample : DataFrame → DataFrame.
Hypothesis sample_permutation : ∀ df, sample df ≡ₚ df.

Lemma generated_names R ng nt ts :
  Name <$> create_day2_seating sample (init R ng nt ts)
  ≡ₚ (Name <$> R) ++ (Name <$> generate_guests ng).
Proof.
  rewrite (create_day2_seating_names sample sample_permutation).
  cbn [init attendees_df guests]. by rewrite fmap_app.
Qed.

(** X6: [create_day2_seating] followed by [verify_seating_plan] returns
    the success exactly when at least one record is dealt, no two roster
    records share a name and no roster name is one of the labels
    "Guest 1", ..., "Guest num_guests". *)
Theorem verification_succeeds_iff (R : DataFrame) (ng nt ts : nat) :
  verify_seating_plan_frame (init R ng nt ts) (day2_df sample (init R ng nt ts))
  = Returned (true, "Seating plan is valid.")
  ↔ 0 < length R + ng
    ∧ NoDup (Name <$> R)
    ∧ ∀ i, 1 ≤ i ≤ ng → "Guest " +:+ pretty i ∉ Name <$> R.
Proof.
  destruct (decide (length R + ng = 0)) as [Hzero|Hpos].
  { rewrite (day2_df_No_columns sample sample_permutation) by done.
    cbn [verify_seating_plan_frame]. split; [done|]. intros [? _]. lia. }
  rewrite (day2_df_Columns sample sample_permutation) by lia.
  cbn [verify_seating_plan_frame].
  assert ((verify_seating_plan (init R ng nt ts)
             (create_day2_seating sample (init R ng nt ts))).1 = true
          ↔ NoDup (Name <$> R)
            ∧ ∀ i, 1 ≤ i ≤ ng → "Guest " +:+ pretty i ∉ Name <$> R) as Hiff.
  { rewrite verify_true_iff. setoid_rewrite generated_names.
    rewrite NoDup_app. cbn [init attendees_df]. split.
    - intros [(HR & Hdisj & _) _]. split; [done|].
      intros i Hi Hin. apply (Hdisj _ Hin). rewrite guest_names.
      apply list_elem_of_fmap. exists i. split; [done|].
      apply elem_of_seq. lia.
    - intros [HR Hfresh]. split.
      + split_and!; [done| |apply NoDup_guest_names].
        intros n Hn. rewrite guest_names.
        intros (i & -> & [Hi1 Hi2]%elem_of_seq)%list_elem_of_fmap.
        apply (Hfresh i); [lia|done].
      + intros n Hn. apply elem_of_app. by left. }
  split.
  - intros [= Hv]. split; [lia|]. apply Hiff. by rewrite Hv.
  - intros [_ Hcond]. apply Hiff in Hcond. f_equal.
    rewrite verify_complete in Hcond |- *.
    2,3: intros n Hn; rewrite generated_names; apply elem_of_app; by left.
    by case_decide.
Qed.

(** X12: [create_day2_seating] followed by [verify_seating_plan] raises
    [KeyError('Name')] exactly when nothing is dealt, that is with an
    empty roster and no guest: the returned frame then has no column.
    In every other case the call returns, with the result of the checks
    on the records of the plan. *)
Theorem verification_raises_on_empty_plan (R : DataFrame) (ng nt ts : nat) :
  (verify_seating_plan_frame (init R ng nt ts) (day2_df sample (init R ng nt ts))
   = Raised (KeyError "Name")
   ↔ length R + ng = 0)
  ∧ (0 < length R + ng →
     verify_seating_plan_frame (init R ng nt ts) (day2_df sample (init R ng nt ts))
     = Returned (verify_seating_plan (init R ng nt ts)
                   (create_day2_seating sample (init R ng nt ts)))).
Proof.
  split.
  - destruct (decide (length R + ng = 0)) as [Hzero|Hpos].
    + by rewrite (day2_df_No_columns sample sample_permutation).
    + rewrite (day2_df_Columns sample sample_permutation) by lia.
      cbn [verify_seating_plan_frame]. split; [done|lia].
  - intros Hpos. by rewrite (day2_df_Columns sample sample_permutation).
Qed.

(** X7: the verification of a generated plan never reports a missing
    participant: when it fails, the message is the report of duplicates,
    and it lists, each once, exactly the names carried by more than one
    record among the roster and the guests. *)
Theorem verification_fails_on_duplicates_only (R : DataFrame) (ng nt ts : nat) :
  (verify_seating_plan (init R ng nt ts)
     (create_day2_seating sample (init R ng nt ts))).1 = false →
  ∃ names,
    verify_seating_plan (init R ng nt ts)
      (create_day2_seating sample (init R ng nt ts))
    = (false, "Duplicate entries found: " +:+ String.concat ", " names)
    ∧ names ≠ []
    ∧ NoDup names
    ∧ ∀ n, n ∈ names ↔ 1 < occurrences n (R ++ generate_guests ng).
Proof.
  rewrite verify_complete.
  2:{ intros n Hn. rewrite generated_names. apply elem_of_app. by left. }
  case_decide as Hdup; [intros _|done].
  eexists. split; [done|]. split_and!.
  - destruct (duplicates _) as [|r dups]; [done|]. by rewrite fmap_cons.
  - apply NoDup_unique.
  - intros n. rewrite elem_of_unique, elem_of_duplicates_names.
    rewrite (occurrences_Permutation n _ (R ++ generate_guests ng)); [done|].
    by rewrite generated_names, fmap_app.
Qed.
End verify_generated.

(** * More on the current-plan slot *)

(** X8: when the shuffle permutes its rows, a run of [main] on an upload
    that [pd.read_csv] fails to read, or reads into a frame with text in
    every [Name] cell, keeps the slot valid: whether or not the button is
    clicked, if the slot held nothing or a plan that passed a
    verification, so it does after the run. *)
Theorem main_keeps_slot_valid (sample : DataFrame → DataFrame)
    (uploaded_file : option (outcome DataFrame)) (button : bool)
    (session_state : session_state_t frame) :
  (∀ df, sample df ≡ₚ df) →
  slot_valid session_state →
  slot_valid (main_named sample uploaded_file button session_state).1.
Proof.
  intros Hsample Hvalid. unfold main_named, main, slot_valid in *.
  destruct uploaded_file as [[day1_df|e]|]; [|apply Hvalid..].
  assert (∀ plan,
            match session_state !! "day2_df" with
            | None => <["day2_df" := None]> session_state
            | Some _ => session_state
            end !! "day2_df" = Some (Some plan) →
            ∃ day1_df,
              verify_seating_plan_frame (init_default day1_df) plan
              = Returned (true, "Seating plan is valid.")) as Hinit.
  { destruct (session_state !! "day2_df") eqn:Hslot.
    - intros p Hp. apply Hvalid. by rewrite <-Hslot.
    - intros p. by rewrite lookup_insert_eq. }
  destruct button; [|apply Hinit].
  change (init_default day1_df) with (init day1_df 7 9 7).
  rewrite (day2_df_Columns sample Hsample day1_df 7 9 7) by lia.
  change (init day1_df 7 9 7) with (init_default day1_df).
  cbn [verify_seating_plan_frame].
  destruct (verify_seating_plan (init_default day1_df)
              (create_day2_seating sample (init_default day1_df)))
    as [[] msg] eqn:Hverify; cbn [fst]; intros plan;
    rewrite lookup_insert_eq; [|done].
  intros [= <-]. exists day1_df. cbn [verify_seating_plan_frame].
  rewrite Hverify. do 2 f_equal.
  pose proof (verify_true_iff (init_default day1_df)
                (create_day2_seating sample (init_default day1_df))) as Hiff.
  rewrite Hverify in Hiff. cbn [fst] in Hiff.
  destruct Hiff as [[Hnodup Hall] _]; [done|].
  rewrite verify_complete in Hverify by done.
  case_decide; by simplify_eq.
Qed.

(** X11: a run of [main] with a click, once the plan is created: the
    plan is stored before it is verified, so the slot holds it afterwards
    when the verification returns the success and also when the
    verification raises; it holds [None] when the verification returns a
    failure. *)
Theorem slot_after_click {roster plan : Type}
    (create : roster → outcome plan)
    (verify : roster → plan → outcome (bool * string))
    (day1_df : roster) (day2_df : plan)
    (session_state : session_state_t plan) :
  create day1_df = Returned day2_df →
  (main create verify (Some (Returned day1_df)) true session_state).1
    !! "day2_df"
  = Some (match verify day1_df day2_df with
          | Returned (true, _) => Some day2_df
          | Returned (false, _) => None
          | Raised _ => Some day2_df
          end).
Proof.
  intros Hcreate. unfold main. rewrite Hcreate.
  destruct (verify day1_df day2_df) as [[[] msg]|e]; cbn [fst];
    apply lookup_insert_eq.
Qed.

(** * More on the objects *)

Section obj_more.
Implicit Types (σ : Obj.store) (self : Obj.SeatingPlanGenerator).

(** A call of [create_day2_seating] only adds objects to the store; the
    frame it returns is one of them, and holds the plan. *)
Lemma extends_create_day2_seating sample self (R G : DataFrame) σ :
  σ !! Obj.attendees_df self = Some (Obj.Frame R) →
  σ !! Obj.guests self = Some (Obj.Frame G) →
  extends (Obj.create_day2_seating sample self) σ (λ day2_df σ',
    σ !! day2_df = None
    ∧ σ' !! day2_df
      = Some (Obj.Frame
                (create_day2_seating sample
                   (mkGenerator R (Obj.num_guests self) (Obj.num_tables self)
                                (Obj.table_size self) G)))).
Proof.
  intros HR HG. unfold Obj.create_day2_seating.
  apply extends_bind. unfold Obj.concat.
  apply extends_bind, (extends_frame_rows _ R); [done|].
  apply extends_bind, (extends_frame_rows _ G); [done|].
  apply extends_new. intros c1 Hc1.
  pose proof (insert_subseteq σ c1 (Obj.Frame (R ++ G)) Hc1) as Hσ1.
  set (σ1 := <[c1 := Obj.Frame (R ++ G)]> σ) in *.
  apply extends_bind. unfold Obj.sample_frame.
  apply extends_bind, (extends_frame_rows _ (R ++ G)); [apply lookup_insert_eq|].
  apply extends_new. intros c2 Hc2.
  pose proof (insert_subseteq σ1 c2 (Obj.Frame (sample (R ++ G))) Hc2) as Hσ2.
  set (σ2 := <[c2 := Obj.Frame (sample (R ++ G))]> σ1) in *.
  apply extends_bind, (extends_frame_rows _ (sample (R ++ G)));
    [apply lookup_insert_eq|].
  apply extends_bind.
  eapply extends_mono; [apply extends_deal_loop|].
  intros st σ3 Hσ3 (series & Hseries & ->).
  apply extends_bind.
  eapply extends_mono.
  { apply (extends_seat_tables _
             (deal (Obj.num_tables self) (Obj.table_size self) (sample (R ++ G)))).
    apply deal_from_rel; [constructor|done|done]. }
  intros day2_seating σ4 Hσ4 (out & -> & Hout).
  unfold Obj.DataFrame_of. apply extends_bind.
  exists (seat_tables
            (deal (Obj.num_tables self) (Obj.table_size self) (sample (R ++ G)))),
         σ4.
  split_and!; [by apply (for_each_series_row out _ [])|done|].
  apply extends_new. intros day2_df Hnew. split.
  - apply (lookup_weaken_None σ σ4); [done|].
    by trans σ1; [|trans σ2; [|trans σ3]].
  - apply lookup_insert_eq.
Qed.

(** X9: building a generator and then generating: from a store that
    holds the roster frame, [__init__] followed by [create_day2_seating]
    runs to completion, the frame of the guests is a new object that
    holds the synthesized guests, the roster frame is unchanged, and the
    returned frame holds the plan computed from the roster and the
    configuration. *)
Theorem init_then_create (sample : DataFrame → DataFrame)
    (attendees : Obj.ref) (ng nt ts : nat) (R : DataFrame) σ :
  σ !! attendees = Some (Obj.Frame R) →
  ∃ self day2_df σ',
    (self ← Obj.init attendees ng nt ts;
     day2_df ← Obj.create_day2_seating sample self;
     mret (self, day2_df)) σ = Some ((self, day2_df), σ')
    ∧ Obj.attendees_df self = attendees
    ∧ σ !! Obj.guests self = None
    ∧ σ' !! attendees = Some (Obj.Frame R)
    ∧ σ' !! Obj.guests self = Some (Obj.Frame (generate_guests ng))
    ∧ σ' !! day2_df
      = Some (Obj.Frame (create_day2_seating sample (init R ng nt ts))).
Proof.
  intros HR.
  cut (extends (self ← Obj.init attendees ng nt ts;
                day2_df ← Obj.create_day2_seating sample self;
                mret (self, day2_df)) σ (λ res σ',
         Obj.attendees_df res.1 = attendees
         ∧ σ !! Obj.guests res.1 = None
         ∧ σ' !! Obj.guests res.1 = Some (Obj.Frame (generate_guests ng))
         ∧ σ' !! res.2
           = Some (Obj.Frame (create_day2_seating sample (init R ng nt ts))))).
  { intros ([self day2_df] & σ' & Hrun & Hσ & Ha & Hnew & Hg & Hplan).
    exists self, day2_df, σ'. split_and!; try done.
    by apply (lookup_weaken σ σ'). }
  apply extends_bind.
  eapply extends_mono; [apply extends_init|].
  intros self σ1 Hσ1 (Ha & Hng & Hnt & Hts & Hnew & Hg).
  apply extends_bind.
  eapply extends_mono.
  { apply (extends_create_day2_seating sample self R (generate_guests ng));
      [|done]. rewrite Ha. by apply (lookup_weaken σ σ1). }
  intros day2_df σ2 Hσ2 (Hfresh & Hplan).
  apply extends_ret. cbn [fst snd]. split_and!; try done.
  - by apply (lookup_weaken σ1 σ2).
  - by rewrite Hplan, Hng, Hnt, Hts.
Qed.

(** X10: generating twice: two calls in a row both run to completion and
    return two different new frames; the second call leaves the frame
    returned by the first as it was, and the roster frame is unchanged
    after both. *)
Theorem create_twice (sample1 sample2 : DataFrame → DataFrame)
    self (R G : DataFrame) σ :
  σ !! Obj.attendees_df self = Some (Obj.Frame R) →
  σ !! Obj.guests self = Some (Obj.Frame G) →
  ∃ df1 df2 σ',
    (df1 ← Obj.create_day2_seating sample1 self;
     df2 ← Obj.create_day2_seating sample2 self;
     mret (df1, df2)) σ = Some ((df1, df2), σ')
    ∧ df1 ≠ df2
    ∧ σ !! df1 = None ∧ σ !! df2 = None
    ∧ σ' !! Obj.attendees_df self = Some (Obj.Frame R)
    ∧ σ' !! df1
      = Some (Obj.Frame
                (create_day2_seating sample1
                   (mkGenerator R (Obj.num_guests self) (Obj.num_tables self)
                                (Obj.table_size self) G)))
    ∧ σ' !! df2
      = Some (Obj.Frame
                (create_day2_seating sample2
                   (mkGenerator R (Obj.num_guests self) (Obj.num_tables self)
                                (Obj.table_size self) G))).
Proof.
  intros HR HG.
  destruct (extends_create_day2_seating sample1 self R G σ HR HG)
    as (df1 & σ1 & Hrun1 & Hσ1 & Hnew1 & Hplan1).
  destruct (extends_create_day2_seating sample2 self R G σ1)
    as (df2 & σ2 & Hrun2 & Hσ2 & Hnew2 & Hplan2).
  { by apply (lookup_weaken σ σ1). }
  { by apply (lookup_weaken σ σ1). }
  exists df1, df2, σ2. split_and!; try done.
  - unfold mbind, Obj.M_bind. rewrite Hrun1. by rewrite Hrun2.
  - intros ->. rewrite Hnew2 in Hplan1. done.
  - by apply (lookup_weaken_None σ σ1).
  - apply (lookup_weaken σ1 σ2); [|done]. by apply (lookup_weaken σ σ1).
  - by apply (lookup_weaken σ1 σ2).
Qed.
End obj_more.

(** * Further scenarios *)

(** Alice, Bob and Carol with the default configuration: table 2 seats
    the second block of seven shuffled records. *)
Lemma table_seats_block_scenario :
  table_rows 2 (create_day2_seating reverse (init alice_bob_carol 7 9 7))
  = seat_members 2
      (take (table_size (init alice_bob_carol 7 9 7))
         (drop ((2 - 1) * table_size (init alice_bob_carol 7 9 7))
            (combined_df reverse (init alice_bob_carol 7 9 7)))
       ++ (if decide (2 = 1)
           then drop (num_tables (init alice_bob_carol 7 9 7)
                      * table_size (init alice_bob_carol 7 9 7))
                  (combined_df reverse (init alice_bob_carol 7 9 7))
           else [])).
Proof.
  assert (1 ≤ table_size (init alice_bob_carol 7 9 7)) as Hts
    by (vm_compute; lia).
  assert (1 ≤ 2 ≤ num_tables (init alice_bob_carol 7 9 7)) as Ht
    by (vm_compute; lia).
  exact (table_seats_block reverse (init alice_bob_carol 7 9 7) 2 Hts Ht).
Defined.

(** Five records and a single table of two seats. *)
Lemma single_table_plan_scenario :
  create_day2_seating reverse (init (attendees 5) 0 1 2)
  = seat_members 1 (combined_df reverse (init (attendees 5) 0 1 2)).
Proof.
  assert (num_tables (init (attendees 5) 0 1 2) ≤ 1
          ∨ table_size (init (attendees 5) 0 1 2) = 0) as Hcfg
    by (left; vm_compute; lia).
  exact (single_table_plan reverse (init (attendees 5) 0 1 2) Hcfg).
Defined.

Lemma verification_succeeds_iff_scenario :
  verify_seating_plan_frame (init alice_bob_carol 7 9 7)
    (day2_df reverse (init alice_bob_carol 7 9 7))
  = Returned (true, "Seating plan is valid.")
  ↔ 0 < length alice_bob_carol + 7
    ∧ NoDup (Name <$> alice_bob_carol)
    ∧ ∀ i, 1 ≤ i ≤ 7 → "Guest " +:+ pretty i ∉ Name <$> alice_bob_carol.
Proof.
  exact (verification_succeeds_iff reverse reverse_Permutation alice_bob_carol 7 9 7).
Defined.

(** No roster and no guest: the verification of the returned frame
    raises. *)
Lemma verification_raises_on_empty_plan_scenario :
  verify_seating_plan_frame (init [] 0 9 7) (day2_df reverse (init [] 0 9 7))
  = Raised (KeyError "Name").
Proof.
  exact (proj2 (proj1 (verification_raises_on_empty_plan
                         reverse reverse_Permutation [] 0 9 7)) eq_refl).
Defined.

(** A roster with the same name twice. *)
Lemma verification_fails_on_duplicates_only_scenario :
  ∃ names,
    verify_seating_plan (init [person "Alice"; person "Alice"] 7 9 7)
      (create_day2_seating reverse (init [person "Alice"; person "Alice"] 7 9 7))
    = (false, "Duplicate entries found: " +:+ String.concat ", " names)
    ∧ names ≠ []
    ∧ NoDup names
    ∧ ∀ n, n ∈ names
           ↔ 1 < occurrences n ([person "Alice"; person "Alice"] ++ generate_guests 7).
Proof.
  assert ((verify_seating_plan (init [person "Alice"; person "Alice"] 7 9 7)
             (create_day2_seating reverse
                (init [person "Alice"; person "Alice"] 7 9 7))).1 = false)
    as Hfails by (vm_compute; reflexivity).
  exact (verification_fails_on_duplicates_only reverse reverse_Permutation
           [person "Alice"; person "Alice"] 7 9 7 Hfails).
Defined.

(** The first click of a session. *)
Lemma main_keeps_slot_valid_scenario :
  slot_valid
    (main_named reverse (Some (Returned alice_bob_carol)) true ∅).1.
Proof.
  assert (slot_valid ∅) as Hempty.
  { unfold slot_valid. intros plan Hplan.
    rewrite lookup_empty in Hplan. discriminate Hplan. }
  exact (main_keeps_slot_valid reverse (Some (Returned alice_bob_carol)) true ∅
           reverse_Permutation Hempty).
Defined.

(** A click with a generator without guests on an empty roster: the
    frame has no column, the verification raises, and the frame stays in
    the slot. *)
Lemma slot_after_click_scenario :
  (main (λ day1_df, Returned (day2_df reverse (init day1_df 0 9 7)))
        (λ day1_df, verify_seating_plan_frame (init day1_df 0 9 7))
        (Some (Returned [])) true ∅).1 !! "day2_df"
  = Some (Some No_columns).
Proof.
  exact (slot_after_click
           (λ day1_df, Returned (day2_df reverse (init day1_df 0 9 7)))
           (λ day1_df, verify_seating_plan_frame (init day1_df 0 9 7))
           [] No_columns ∅ eq_refl).
Defined.

(** A store that holds the roster only, at reference 1. *)
Lemma init_then_create_scenario :
  ∃ self day2_df σ',
    (self ← Obj.init 1 7 9 7;
     day2_df ← Obj.create_day2_seating reverse self;
     mret (self, day2_df))
      {[ 1%positive := Obj.Frame alice_bob_carol ]}
    = Some ((self, day2_df), σ')
    ∧ σ' !! 1%positive = Some (Obj.Frame alice_bob_carol)
    ∧ σ' !! day2_df
      = Some (Obj.Frame (create_day2_seating reverse (init alice_bob_carol 7 9 7))).
Proof.
  destruct (init_then_create reverse 1 7 9 7 alice_bob_carol
              {[ 1%positive := Obj.Frame alice_bob_carol ]})
    as (self & day2_df & σ' & Hrun & _ & _ & Hroster & _ & Hplan);
    [vm_compute; reflexivity|].
  exists self, day2_df, σ'.
  split; [exact Hrun|]. split; [exact Hroster|exact Hplan].
Defined.

(** Two calls on the store of the roster and the guests, the second
    one with the identity as shuffle. *)
Lemma create_twice_scenario :
  ∃ df1 df2 σ',
    (df1 ← Obj.create_day2_seating reverse (Obj.mkGenerator 1 7 9 7 2);
     df2 ← Obj.create_day2_seating id (Obj.mkGenerator 1 7 9 7 2);
     mret (df1, df2))
      {[ 1%positive := Obj.Frame alice_bob_carol;
         2%positive := Obj.Frame (generate_guests 7) ]}
    = Some ((df1, df2), σ')
    ∧ df1 ≠ df2
    ∧ σ' !! 1%positive = Some (Obj.Frame alice_bob_carol).
Proof.
  destruct (create_twice reverse id (Obj.mkGenerator 1 7 9 7 2)
              alice_bob_carol (generate_guests 7)
              {[ 1%positive := Obj.Frame alice_bob_carol;
                 2%positive := Obj.Frame (generate_guests 7) ]})
    as (df1 & df2 & σ' & Hrun & Hne & _ & _ & Hroster & _);
    [vm_compute; reflexivity..|].
  exists df1, df2, σ'.
  split; [exact Hrun|]. split; [exact Hne|exact Hroster].
Defined.
